(** * csr-pipes/vector_add.cpp: a vector-sum kernel behind host pipes

    Shallow embedding of [vector_add.cpp] (the SYCL FPGA tutorial
    "component interfaces comparison", variant csr-pipes) and proofs of
    its contract: what the kernel [SimpleVAddKernel] reads and writes,
    what the host program [main] feeds, launches, reads back and returns.

    - C++ [int] is a [Z] kept in the 32-bit two's-complement range by
      [wrap_int] after every arithmetic operation.
    - The three pipes, the two output streams, the log of pipe operations
      and the faults the SYCL runtime is going to raise are the fields of
      one [world] that every operation threads.
    - Code that can throw, block on an empty pipe or index an array is
      written in the monad [M]. *)

From Stdlib Require Import ZArith Lia.
From stdpp Require Import base list strings.

Local Open Scope Z_scope.

(** ** 32-bit signed integers *)

Definition INT_MIN : Z := - 2 ^ 31.
Definition INT_MAX : Z := 2 ^ 31 - 1.

Definition is_int (z : Z) : Prop := INT_MIN <= z <= INT_MAX.

(** Reduction of a mathematical integer to the [int] that has the same
    low 32 bits. *)
Definition wrap_int (z : Z) : Z := (z + 2 ^ 31) mod 2 ^ 32 - 2 ^ 31.

Definition int_add (x y : Z) : Z := wrap_int (x + y).
Definition int_sub (x y : Z) : Z := wrap_int (x - y).

(** [EXIT_SUCCESS] and [EXIT_FAILURE] of <cstdlib>. *)
Definition EXIT_SUCCESS : Z := 0.
Definition EXIT_FAILURE : Z := 1.

(** ** The world *)

(** The pipe identifiers forward-declared at the top of the file. *)
Inductive pipe_id : Set := IDPipeA | IDPipeB | IDPipeC.

#[global] Instance pipe_id_eq_dec : EqDecision pipe_id.
Proof. solve_decision. Defined.

(** The three build-time device selectors (lines 63-69). *)
Inductive selector : Set :=
| fpga_simulator_selector_v
| fpga_selector_v
| fpga_emulator_selector_v.

(** One entry per pipe operation or kernel life-cycle step, in program
    order. *)
Inductive event : Type :=
| HostWrite (p : pipe_id) (v : Z)
| HostRead (p : pipe_id) (v : Z)
| DevRead (p : pipe_id) (v : Z)
| DevWrite (p : pipe_id) (v : Z)
| KernelLaunch
| KernelDone.

#[global] Instance event_eq_dec : EqDecision event.
Proof. solve_decision. Defined.

(** What [operator<<] appends to a stream. *)
Inductive token : Type :=
| Str (s : string)
| Num (z : Z)
| Endl.

Record world : Type := mkWorld {
  pipeA : list Z;                 (* contents of InputPipeA, oldest first *)
  pipeB : list Z;                 (* contents of InputPipeB *)
  pipeC : list Z;                 (* contents of OutputPipeC *)
  cout : list token;              (* std::cout *)
  cerr : list token;              (* std::cerr *)
  trace : list event;             (* log of pipe operations *)
  faults : list (option string);  (* one entry per future runtime call:
                                     [Some what] makes that call throw *)
  device_name : selector -> string
}.

Definition pipe_get (p : pipe_id) (w : world) : list Z :=
  match p with
  | IDPipeA => pipeA w
  | IDPipeB => pipeB w
  | IDPipeC => pipeC w
  end.

Definition pipe_set (p : pipe_id) (l : list Z) (w : world) : world :=
  match p with
  | IDPipeA => mkWorld l (pipeB w) (pipeC w) (cout w) (cerr w) (trace w)
                 (faults w) (device_name w)
  | IDPipeB => mkWorld (pipeA w) l (pipeC w) (cout w) (cerr w) (trace w)
                 (faults w) (device_name w)
  | IDPipeC => mkWorld (pipeA w) (pipeB w) l (cout w) (cerr w) (trace w)
                 (faults w) (device_name w)
  end.

Definition log_events (evs : list event) (w : world) : world :=
  mkWorld (pipeA w) (pipeB w) (pipeC w) (cout w) (cerr w) (trace w ++ evs)
    (faults w) (device_name w).

Definition put_cout (ts : list token) (w : world) : world :=
  mkWorld (pipeA w) (pipeB w) (pipeC w) (cout w ++ ts) (cerr w) (trace w)
    (faults w) (device_name w).

Definition put_cerr (ts : list token) (w : world) : world :=
  mkWorld (pipeA w) (pipeB w) (pipeC w) (cout w) (cerr w ++ ts) (trace w)
    (faults w) (device_name w).

Definition set_faults (fs : list (option string)) (w : world) : world :=
  mkWorld (pipeA w) (pipeB w) (pipeC w) (cout w) (cerr w) (trace w)
    fs (device_name w).

(** ** The monad of host and device code *)

Inductive exception : Type :=
| sycl_exception (what : string)
| bad_array_new_length.

(** Why a computation did not go on: a read of an empty pipe never returns,
    an index out of the array is undefined, and [OutOfFuel] is the bound of
    the loops of this model running out (shown below never to happen). *)
Inductive halt : Set := Blocked | OutOfBounds | OutOfFuel.

Inductive result (A : Type) : Type :=
| Ok (a : A) (w : world)
| Throw (e : exception) (w : world)
| Halt (h : halt) (w : world).

Arguments Ok {A} a w.
Arguments Throw {A} e w.
Arguments Halt {A} h w.

Definition M (A : Type) : Type := world -> result A.

Definition ret {A : Type} (a : A) : M A := fun w => Ok a w.

Definition bind {A B : Type} (m : M A) (k : A -> M B) : M B :=
  fun w =>
    match m w with
    | Ok a w' => k a w'
    | Throw e w' => Throw e w'
    | Halt h w' => Halt h w'
    end.

Definition throw {A : Type} (e : exception) : M A := fun w => Throw e w.
Definition halt_with {A : Type} (h : halt) : M A := fun w => Halt h w.
Definition modify (f : world -> world) : M unit := fun w => Ok tt (f w).

Declare Scope prog_scope.
Delimit Scope prog_scope with prog.
Notation "x <- m ;; k" := (bind m (fun x => k))
  (at level 100, m at next level, k at level 200, right associativity) : prog_scope.
Notation "m ;; k" := (bind m (fun _ => k))
  (at level 100, k at level 200, right associativity) : prog_scope.
Local Open Scope prog_scope.

(** ** Pipes *)

(** [Pipe::read()] in device code: takes the oldest value, and does not
    return while the pipe is empty. *)
Definition device_read (p : pipe_id) : M Z :=
  fun w =>
    match pipe_get p w with
    | [] => Halt Blocked w
    | v :: rest => Ok v (log_events [DevRead p v] (pipe_set p rest w))
    end.

(** [Pipe::write(v)] in device code. *)
Definition device_write (p : pipe_id) (v : Z) : M unit :=
  fun w => Ok tt (log_events [DevWrite p v] (pipe_set p (pipe_get p w ++ [v]) w)).

(** ** The kernel (lines 35-53) *)

Record SimpleVAddKernel : Set := { len : Z }.

(** The [for] loop of lines 40-46, entered with the current [idx] and
    [sum_total]; returns [sum_total] at loop exit. *)
Fixpoint kernel_loop (fuel : nat) (len idx sum_total : Z) : M Z :=
  if idx <? len then
    match fuel with
    | O => halt_with OutOfFuel
    | S fuel' =>
        a_val <- device_read IDPipeA;;
        b_val <- device_read IDPipeB;;
        let sum := int_add a_val b_val in
        let sum_total := int_add sum_total sum in
        kernel_loop fuel' len (int_add idx 1) sum_total
    end
  else ret sum_total.

(** [SimpleVAddKernel::operator()]. *)
Definition operator_call (k : SimpleVAddKernel) : M unit :=
  let sum_total := 0 in
  sum_total <- kernel_loop (Z.to_nat (len k)) (len k) 0 sum_total;;
  device_write IDPipeC sum_total.

Definition kVectorSize : Z := 256.

(** ** The SYCL runtime seen from the host *)

(** Every call into the runtime consumes one entry of [faults] and throws
    a [sycl::exception] when the entry says so. These are the faults the
    [catch] block of [main] is written for; errors that the runtime reports
    asynchronously go to [fpga_tools::exception_handler], which is not part
    of this file, and are not modelled. *)
Definition runtime_call : M unit :=
  fun w =>
    match faults w with
    | [] => Ok tt w
    | None :: rest => Ok tt (set_faults rest w)
    | Some what :: rest => Throw (sycl_exception what) (set_faults rest w)
    end.

Record queue : Set := { queue_selector : selector }.

(** [sycl::queue q(selector, fpga_tools::exception_handler)]. The handler
    is for asynchronous errors; the faults of this model are all thrown by
    the call that meets them. *)
Definition queue_ctor (sel : selector) : M queue :=
  runtime_call;; ret {| queue_selector := sel |}.

Definition get_device (q : queue) : M selector :=
  runtime_call;; ret (queue_selector q).

(** [device.get_info<sycl::info::device::name>()]. *)
Definition get_info_name (device : selector) : M string :=
  runtime_call;; fun w => Ok (device_name w device) w.

(** [Pipe::write(q, v)] in host code. *)
Definition host_write (q : queue) (p : pipe_id) (v : Z) : M unit :=
  runtime_call;;
  modify (fun w => log_events [HostWrite p v] (pipe_set p (pipe_get p w ++ [v]) w)).

(** [Pipe::read(q)] in host code. *)
Definition host_read (q : queue) (p : pipe_id) : M Z :=
  runtime_call;;
  fun w =>
    match pipe_get p w with
    | [] => Halt Blocked w
    | v :: rest => Ok v (log_events [HostRead p v] (pipe_set p rest w))
    end.

(** A [sycl::event] stands for the submitted kernel invocation. *)
Definition sycl_event : Type := M unit.

(** [q.single_task<Name>(kernel)]: the invocation is submitted. *)
Definition single_task (q : queue) (kernel : M unit) : M sycl_event :=
  runtime_call;; modify (log_events [KernelLaunch]);; ret kernel.

(** [e.wait()] returns when the invocation has run to its end. The host
    does nothing between [single_task] and [wait], so the whole invocation
    is run here. *)
Definition wait (e : sycl_event) : M unit :=
  runtime_call;; e;; modify (log_events [KernelDone]).

Definition print_cout (ts : list token) : M unit := modify (put_cout ts).

(** ** Arrays of [int] *)

(** [new int[count]]; the elements are indeterminate, here 0. *)
Definition new_int_array (count : Z) : M (list Z) :=
  if count <? 0 then throw bad_array_new_length
  else ret (replicate (Z.to_nat count) 0).

(** [arr[i] = v] *)
Definition array_store (arr : list Z) (i v : Z) : M (list Z) :=
  if (0 <=? i) && (i <? Z.of_nat (length arr))
  then ret (<[Z.to_nat i := v]> arr)
  else halt_with OutOfBounds.

(** [arr[i]] *)
Definition array_load (arr : list Z) (i : Z) : M Z :=
  if 0 <=? i then
    match arr !! Z.to_nat i with
    | Some v => ret v
    | None => halt_with OutOfBounds
    end
  else halt_with OutOfBounds.

(** [delete[] arr] *)
Definition delete_array (arr : list Z) : M unit := ret tt.

(** ** The host program (lines 57-133) *)

(** The [for] loop of lines 88-97, entered with the current [i], arrays
    and [expected_sum]; returns the arrays and [expected_sum] at loop
    exit. While [count * count <= INT_MAX] no sum of the loop leaves the
    range of [int]. Beyond that, [expected_sum +=] overflows, which C++
    leaves undefined: the wrap-around written here is what a build that
    does not exploit this computes. *)
Fixpoint feed_loop (fuel : nat) (q : queue) (count i : Z)
    (a b : list Z) (expected_sum : Z) : M (list Z * list Z * Z) :=
  if i <? count then
    match fuel with
    | O => halt_with OutOfFuel
    | S fuel' =>
        a <- array_store a i i;;
        b <- array_store b i (int_sub count i);;
        a_i <- array_load a i;;
        b_i <- array_load b i;;
        let expected_sum := int_add expected_sum (int_add a_i b_i) in
        a_i <- array_load a i;;
        host_write q IDPipeA a_i;;
        b_i <- array_load b i;;
        host_write q IDPipeB b_i;;
        feed_loop fuel' q count (int_add i 1) a b expected_sum
    end
  else ret (a, b, expected_sum).

(** The body of the [try] block, for the build-time [selector] and with
    [count] in place of its initial value [kVectorSize]. The operands of the
    chained [<<] of lines 76-78 are evaluated from left to right: the label
    is on [cout] before the name is asked for. *)
Definition main_try (sel : selector) (count : Z) : M Z :=
  q <- queue_ctor sel;;
  device <- get_device q;;
  print_cout [Str "Running on device: "];;
  name <- get_info_name device;;
  print_cout [Str name; Endl];;
  let expected_sum := 0 in
  a <- new_int_array count;;
  b <- new_int_array count;;
  fed <- feed_loop (Z.to_nat count) q count 0 a b expected_sum;;
  let '(a, b, expected_sum) := fed in
  print_cout [Str "Add two vectors of size "; Num count; Endl];;
  e <- single_task q (operator_call {| len := count |});;
  wait e;;
  let passed := true in
  calc <- host_read q IDPipeC;;
  passed <- (if negb (calc =? expected_sum) then
               print_cout [Str "result "; Num calc; Str ", expected (";
                           Num expected_sum; Str ")"; Endl];;
               ret false
             else ret passed);;
  print_cout [Str (if passed : bool then "PASSED" else "FAILED"); Endl];;
  delete_array a;;
  delete_array b;;
  ret (if passed : bool then EXIT_SUCCESS else EXIT_FAILURE).

(** How the process ends: [return] from [main], [std::terminate], or never
    (for the reason given). *)
Inductive outcome : Set :=
| Exited (code : Z)
| Terminated
| Stopped (h : halt).

(** The diagnostic of the [catch] block (lines 125-130). *)
Definition diagnostic (what : string) : list token :=
  [Str "Caught a synchronous SYCL exception: "; Str what; Endl;
   Str "   If you are targeting an FPGA hardware, ensure that your system is plugged to an FPGA board that is set up correctly";
   Endl].

(** [main] with its [try] and [catch]. Another exception than
    [sycl::exception] leaves [main] uncaught, which ends in
    [std::terminate] as well, with nothing printed by the program. *)
Definition main_with (sel : selector) (count : Z) (w : world) : outcome * world :=
  match main_try sel count w with
  | Ok code w' => (Exited code, w')
  | Throw (sycl_exception what) w' => (Terminated, put_cerr (diagnostic what) w')
  | Throw bad_array_new_length w' => (Terminated, w')
  | Halt h w' => (Stopped h, w')
  end.

Definition main (sel : selector) (w : world) : outcome * world :=
  main_with sel kVectorSize w.

(** The world at program start: empty pipes and streams, and the runtime
    calls failing as [fs] says. *)
Definition start (fs : list (option string)) : world :=
  mkWorld [] [] [] [] [] [] fs (fun _ => "fpga"%string).

(** The world at program start, but for a value that something else left
    in pipe C. *)
Definition stale_output : world := pipe_set IDPipeC [7] (start []).

(** A world with two complete pairs and one more value waiting in each
    input pipe. *)
Definition two_pairs_left : world :=
  mkWorld [1; 2; 3] [10; 20; 30] [] [] [] [] [] (fun _ => "fpga"%string).

(** ** Observations used in the statements *)

(** The events the kernel logs when it reads [xs] from pipe A and [ys] from
    pipe B in lockstep. *)
Fixpoint paired_reads (xs ys : list Z) : list event :=
  match xs, ys with
  | x :: xs', y :: ys' => DevRead IDPipeA x :: DevRead IDPipeB y :: paired_reads xs' ys'
  | _, _ => []
  end.

(** The running total of the kernel loop after the pairs of [xs] and [ys],
    from the total [s]. *)
Definition running_total (s : Z) (xs ys : list Z) : Z :=
  foldl int_add s (zip_with int_add xs ys).

(** The specification's reading of the result: the sum of all
    [xs !! i + ys !! i], taken over the integers, ... *)
Definition sum_of_pairs (xs ys : list Z) : Z :=
  foldr Z.add 0 (zip_with Z.add xs ys).

(** ... and reduced modulo 2^32 to an [int]. *)
Definition sum_mod_2_32 (xs ys : list Z) : Z := wrap_int (sum_of_pairs xs ys).

Definition is_host_write (p : pipe_id) (e : event) : bool :=
  match e with HostWrite p' _ => bool_decide (p' = p) | _ => false end.
Definition is_host_read (p : pipe_id) (e : event) : bool :=
  match e with HostRead p' _ => bool_decide (p' = p) | _ => false end.
Definition is_dev_read (p : pipe_id) (e : event) : bool :=
  match e with DevRead p' _ => bool_decide (p' = p) | _ => false end.
Definition is_dev_write (p : pipe_id) (e : event) : bool :=
  match e with DevWrite p' _ => bool_decide (p' = p) | _ => false end.

(** Number of events of [tr] of the kind [f]. *)
Definition count_events (f : event -> bool) (tr : list event) : nat :=
  length (List.filter f tr).

(** The value an invocation of the kernel in the world [w] writes to
    OutputPipeC, if it gets there. *)
Definition kernel_output (k : SimpleVAddKernel) (w : world) : option Z :=
  match operator_call k w with
  | Ok _ w' => last (pipeC w')
  | _ => None
  end.

(** The world with the contents of the two input pipes exchanged. *)
Definition swap_inputs (w : world) : world :=
  pipe_set IDPipeB (pipeA w) (pipe_set IDPipeA (pipeB w) w).

(** The first fault among the next [n] runtime calls. *)
Fixpoint first_fault (n : nat) (fs : list (option string)) : option string :=
  match n, fs with
  | S n', None :: fs' => first_fault n' fs'
  | S _, Some what :: _ => Some what
  | _, _ => None
  end.

(** Two worlds that show each other's input pipes. *)
Definition swapped (w1 w2 : world) : Prop :=
  pipeA w1 = pipeB w2 /\ pipeB w1 = pipeA w2.

(** Results that agree on the value returned, or on not returning. *)
Definition same_value {A : Type} (r1 r2 : result A) : Prop :=
  match r1, r2 with
  | Ok a1 _, Ok a2 _ => a1 = a2
  | Halt h1 _, Halt h2 _ => h1 = h2
  | _, _ => False
  end.

(** The world once the next [n] runtime calls have been answered. *)
Definition after_calls (n : nat) (w : world) : world :=
  set_faults (drop n (faults w)) w.

(** What the feeding loop writes for the indices [js]: [a[j] = j] to pipe A
    and [b[j] = count - j] to pipe B. *)
Definition fed_A (js : list Z) : list Z := js.
Definition fed_B (count : Z) (js : list Z) : list Z := (fun j => count - j) <$> js.

Fixpoint feed_events (count : Z) (js : list Z) : list event :=
  match js with
  | [] => []
  | j :: js' => HostWrite IDPipeA j :: HostWrite IDPipeB (count - j) :: feed_events count js'
  end.

(** Number of runtime calls of a run of [main_try] that no fault stops:
    queue, device and name, two pipe writes per element, then launch, wait
    and the read of the result. *)
Definition main_calls (count : Z) : nat :=
  (3 + (Z.to_nat count + Z.to_nat count) + 3)%nat.

(** What the kernel launched by [main_try] reads from pipes A and B: the
    oldest [count] values, the fed ones after whatever was there. *)
Definition kernel_reads_A (count : Z) (w : world) : list Z :=
  take (Z.to_nat count) (pipeA w ++ fed_A (seqZ 0 count)).
Definition kernel_reads_B (count : Z) (w : world) : list Z :=
  take (Z.to_nat count) (pipeB w ++ fed_B count (seqZ 0 count)).

Definition kernel_total (count : Z) (w : world) : Z :=
  running_total 0 (kernel_reads_A count w) (kernel_reads_B count w).

(** The value [main_try] reads back from pipe C. *)
Definition host_calc (count : Z) (w : world) : Z :=
  hd 0 (pipeC w ++ [kernel_total count w]).

(** The pipe operations of a run of [main_try] that no fault stops. *)
Definition run_events (count : Z) (w : world) : list event :=
  feed_events count (seqZ 0 count) ++
  [KernelLaunch] ++
  paired_reads (kernel_reads_A count w) (kernel_reads_B count w) ++
  [DevWrite IDPipeC (kernel_total count w); KernelDone;
   HostRead IDPipeC (host_calc count w)].

(** What such a run prints, given the expected sum of the harness. *)
Definition run_output (sel : selector) (count expected_sum : Z) (w : world) : list token :=
  [Str "Running on device: "; Str (device_name w sel); Endl;
   Str "Add two vectors of size "; Num count; Endl] ++
  (if host_calc count w =? expected_sum then [Str "PASSED"; Endl]
   else [Str "result "; Num (host_calc count w); Str ", expected (";
         Num expected_sum; Str ")"; Endl; Str "FAILED"; Endl]).

(** The world such a run leaves. *)
Definition final_world (sel : selector) (count expected_sum : Z) (w : world) : world :=
  mkWorld (drop (Z.to_nat count) (pipeA w ++ fed_A (seqZ 0 count)))
          (drop (Z.to_nat count) (pipeB w ++ fed_B count (seqZ 0 count)))
          (tail (pipeC w ++ [kernel_total count w]))
          (cout w ++ run_output sel count expected_sum w)
          (cerr w)
          (trace w ++ run_events count w)
          (drop (main_calls count) (faults w))
          (device_name w).

(** The world in which [main_try] enters its feeding loop. *)
Definition feeding_world (sel : selector) (w : world) : world :=
  put_cout [Str "Running on device: "; Str (device_name w sel); Endl] (after_calls 3 w).

(** The world a computation leaves, however it ends. *)
Definition world_of {A : Type} (r : result A) : world :=
  match r with
  | Ok _ w => w
  | Throw _ w => w
  | Halt _ w => w
  end.

(** Reads of the two input pipes by the device. *)
Definition is_input_read (e : event) : bool :=
  match e with
  | DevRead IDPipeA _ | DevRead IDPipeB _ => true
  | _ => false
  end.

(** Writes of the two input pipes by the host. *)
Definition is_feed_write (e : event) : bool :=
  match e with
  | HostWrite IDPipeA _ | HostWrite IDPipeB _ => true
  | _ => false
  end.

(** From [w] to [w'] nothing happened but reads of the input pipes. *)
Definition reads_only (w w' : world) : Prop :=
  pipeC w' = pipeC w /\ cout w' = cout w /\ cerr w' = cerr w /\
  faults w' = faults w /\
  exists evs, trace w' = trace w ++ evs /\ Forall (fun e => is_input_read e = true) evs.

(** From [w] to [w'] no pipe operation happened but host writes of the
    input pipes, and nothing went to [cerr]. *)
Definition feeds_only (w w' : world) : Prop :=
  pipeC w' = pipeC w /\ cerr w' = cerr w /\
  exists evs, trace w' = trace w ++ evs /\ Forall (fun e => is_feed_write e = true) evs.

(** The sum of a list over the integers. *)
Definition sum_values (l : list Z) : Z := foldr Z.add 0 l.

(** ** Integers *)

Lemma wrap_int_id z : is_int z -> wrap_int z = z.
Proof.
  unfold is_int, INT_MIN, INT_MAX, wrap_int. intros Hz.
  rewrite Z.mod_small; lia.
Qed.

Lemma wrap_int_range z : is_int (wrap_int z).
Proof.
  unfold is_int, INT_MIN, INT_MAX, wrap_int.
  pose proof (Z.mod_pos_bound (z + 2 ^ 31) (2 ^ 32)). lia.
Qed.

Lemma wrap_int_mod z : wrap_int z mod 2 ^ 32 = z mod 2 ^ 32.
Proof.
  unfold wrap_int. rewrite Zminus_mod, Zmod_mod, <- Zminus_mod.
  f_equal. lia.
Qed.

Lemma wrap_int_add_l x y : wrap_int (wrap_int x + y) = wrap_int (x + y).
Proof.
  unfold wrap_int.
  replace ((x + 2 ^ 31) mod 2 ^ 32 - 2 ^ 31 + y + 2 ^ 31)
    with ((x + 2 ^ 31) mod 2 ^ 32 + y) by lia.
  rewrite Zplus_mod_idemp_l. f_equal. f_equal. lia.
Qed.

Lemma wrap_int_add_r x y : wrap_int (x + wrap_int y) = wrap_int (x + y).
Proof. rewrite Z.add_comm, wrap_int_add_l. f_equal. lia. Qed.

Lemma int_add_comm x y : int_add x y = int_add y x.
Proof. unfold int_add. f_equal. lia. Qed.

Lemma int_add_succ i hi : INT_MIN <= i -> i < hi -> hi <= INT_MAX -> int_add i 1 = i + 1.
Proof. intros. apply wrap_int_id. unfold is_int. lia. Qed.

(** ** The monad *)

Lemma bind_Ok {A B} (m : M A) (k : A -> M B) w a w' :
  m w = Ok a w' -> bind m k w = k a w'.
Proof. unfold bind. intros ->. reflexivity. Qed.

Lemma bind_Throw {A B} (m : M A) (k : A -> M B) w e w' :
  m w = Throw e w' -> bind m k w = Throw e w'.
Proof. unfold bind. intros ->. reflexivity. Qed.

Lemma bind_Halt {A B} (m : M A) (k : A -> M B) w h w' :
  m w = Halt h w' -> bind m k w = Halt h w'.
Proof. unfold bind. intros ->. reflexivity. Qed.

Lemma bind_eq {A B} (m : M A) (k : A -> M B) w :
  bind m k w =
    match m w with
    | Ok a w' => k a w'
    | Throw e w' => Throw e w'
    | Halt h w' => Halt h w'
    end.
Proof. reflexivity. Qed.

(** ** The kernel *)

Lemma kernel_loop_exit fuel len idx s w :
  len <= idx -> kernel_loop fuel len idx s w = Ok s w.
Proof.
  intros H. destruct fuel; simpl;
    (destruct (idx <? len) eqn:E; [apply Z.ltb_lt in E; lia | reflexivity]).
Qed.

(** The loop reads [xs] and [ys] pairwise off the heads of the input pipes
    and leaves with the running total. *)
Lemma kernel_loop_ok xs : forall ys fuel len idx s w ra rb,
  length ys = length xs ->
  Z.of_nat (length xs) = len - idx ->
  INT_MIN <= idx -> len <= INT_MAX ->
  (length xs <= fuel)%nat ->
  pipeA w = xs ++ ra -> pipeB w = ys ++ rb ->
  kernel_loop fuel len idx s w =
    Ok (running_total s xs ys)
       (log_events (paired_reads xs ys) (pipe_set IDPipeB rb (pipe_set IDPipeA ra w))).
Proof.
  induction xs as [|x xs IH]; intros ys fuel len idx s w ra rb Hl Hn Hlo Hhi Hf HA HB.
  - destruct ys; [|discriminate]. simpl in *.
    rewrite kernel_loop_exit by lia.
    destruct w; simpl in *; subst. unfold log_events; simpl.
    rewrite app_nil_r. reflexivity.
  - destruct ys as [|y ys]; [discriminate|].
    destruct fuel as [|fuel]; [simpl in Hf; lia|].
    simpl in Hl, Hn, Hf. simpl kernel_loop.
    destruct (idx <? len) eqn:E; [|apply Z.ltb_ge in E; lia].
    apply Z.ltb_lt in E.
    unfold bind at 1. unfold device_read at 1. simpl pipe_get. rewrite HA. simpl.
    unfold bind at 1. unfold device_read at 1. simpl pipe_get. rewrite HB. simpl.
    rewrite (int_add_succ idx len) by lia.
    rewrite (IH ys fuel len (idx + 1) _ _ ra rb); simpl; try lia; try reflexivity.
    destruct w; unfold log_events, running_total; simpl.
    rewrite <- !app_assoc. reflexivity.
Qed.

Lemma count_events_app f tr1 tr2 :
  count_events f (tr1 ++ tr2) = (count_events f tr1 + count_events f tr2)%nat.
Proof. unfold count_events. rewrite List.filter_app, length_app. reflexivity. Qed.

Lemma count_paired_reads_A xs : forall ys,
  length ys = length xs ->
  count_events (is_dev_read IDPipeA) (paired_reads xs ys) = length xs.
Proof.
  induction xs as [|x xs IH]; intros [|y ys] Hl; try discriminate; [reflexivity|].
  simpl in Hl. unfold count_events in *. simpl. rewrite IH by lia. reflexivity.
Qed.

Lemma count_paired_reads_B xs : forall ys,
  length ys = length xs ->
  count_events (is_dev_read IDPipeB) (paired_reads xs ys) = length xs.
Proof.
  induction xs as [|x xs IH]; intros [|y ys] Hl; try discriminate; [reflexivity|].
  simpl in Hl. unfold count_events in *. simpl. rewrite IH by lia. reflexivity.
Qed.

Lemma count_paired_reads_other f xs : forall ys,
  (forall v, f (DevRead IDPipeA v) = false) ->
  (forall v, f (DevRead IDPipeB v) = false) ->
  count_events f (paired_reads xs ys) = O.
Proof.
  induction xs as [|x xs IH]; intros [|y ys] HA HB; try reflexivity.
  unfold count_events in *. simpl. rewrite HA, HB. apply IH; assumption.
Qed.

(** With [N] values waiting in each input pipe the invocation returns, and
    this is all it does. *)
Lemma operator_call_ok N xs ys ra rb w :
  0 <= N <= INT_MAX ->
  Z.of_nat (length xs) = N -> Z.of_nat (length ys) = N ->
  pipeA w = xs ++ ra -> pipeB w = ys ++ rb ->
  operator_call {| len := N |} w =
    Ok tt (mkWorld ra rb (pipeC w ++ [running_total 0 xs ys]) (cout w) (cerr w)
             (trace w ++ paired_reads xs ys ++ [DevWrite IDPipeC (running_total 0 xs ys)])
             (faults w) (device_name w)).
Proof.
  intros HN Hx Hy HA HB. unfold operator_call. simpl len.
  erewrite bind_Ok; [|apply (kernel_loop_ok xs ys _ N 0 0 w ra rb);
    unfold INT_MIN; try lia; assumption].
  unfold device_write, log_events; simpl. rewrite <- app_assoc. reflexivity.
Qed.

(** The running total, started from an [int], is the sum over the integers
    reduced once at the end. *)
Lemma running_total_spec xs : forall ys s,
  is_int s ->
  running_total s xs ys = wrap_int (s + sum_of_pairs xs ys).
Proof.
  unfold sum_of_pairs.
  induction xs as [|x xs IH]; intros ys s Hs.
  - simpl. unfold running_total. simpl. rewrite Z.add_0_r, wrap_int_id; auto.
  - destruct ys as [|y ys].
    + unfold running_total. simpl. rewrite Z.add_0_r, wrap_int_id; auto.
    + unfold running_total in *. simpl. rewrite IH by apply wrap_int_range.
      unfold int_add. rewrite wrap_int_add_l.
      replace (s + wrap_int (x + y) + foldr Z.add 0 (zip_with Z.add xs ys))
        with (s + foldr Z.add 0 (zip_with Z.add xs ys) + wrap_int (x + y)) by lia.
      rewrite wrap_int_add_r. f_equal. lia.
Qed.

Lemma kernel_loop_swapped fuel : forall len idx s w1 w2,
  swapped w1 w2 ->
  same_value (kernel_loop fuel len idx s w1) (kernel_loop fuel len idx s w2).
Proof.
  induction fuel as [|fuel IH]; intros len idx s w1 w2 [HA HB]; simpl;
    destruct (idx <? len); try reflexivity.
  unfold bind at 1 3. unfold device_read at 1 3. simpl pipe_get.
  rewrite HA.
  destruct (pipeB w2) as [|b rb] eqn:EB, (pipeA w2) as [|a ra] eqn:EA; simpl;
    try reflexivity.
  - unfold bind, device_read; simpl. rewrite EB. reflexivity.
  - unfold bind, device_read; simpl. rewrite HB. reflexivity.
  - unfold bind, device_read; simpl. rewrite HB, EB.
    rewrite (int_add_comm b a). apply IH. split; reflexivity.
Qed.

Lemma kernel_loop_agree fuel : forall len idx s w1 w2,
  take fuel (pipeA w1) = take fuel (pipeA w2) ->
  take fuel (pipeB w1) = take fuel (pipeB w2) ->
  same_value (kernel_loop fuel len idx s w1) (kernel_loop fuel len idx s w2).
Proof.
  induction fuel as [|fuel IH]; intros len idx s w1 w2 HA HB; simpl;
    destruct (idx <? len); try reflexivity.
  unfold bind at 1 3. unfold device_read at 1 3. simpl pipe_get.
  destruct (pipeA w1) as [|a1 ra1] eqn:EA1, (pipeA w2) as [|a2 ra2] eqn:EA2;
    simpl in HA; try discriminate; simpl; try reflexivity.
  injection HA as -> HA.
  unfold bind, device_read. simpl pipe_get.
  destruct (pipeB w1) as [|b1 rb1] eqn:EB1, (pipeB w2) as [|b2 rb2] eqn:EB2;
    simpl in HB; try discriminate; simpl; try reflexivity.
  injection HB as -> HB.
  apply IH; simpl; assumption.
Qed.

(** The bound [Z.to_nat len] on the iterations is never what stops the
    loop: an invocation returns or waits on an empty pipe. *)
Lemma kernel_loop_fuel fuel : forall len idx s w w',
  INT_MIN <= idx -> len <= INT_MAX -> len - idx <= Z.of_nat fuel ->
  kernel_loop fuel len idx s w <> Halt OutOfFuel w'.
Proof.
  induction fuel as [|fuel IH]; intros len idx s w w' Hlo Hhi Hf; simpl;
    destruct (idx <? len) eqn:E; try discriminate.
  - apply Z.ltb_lt in E. lia.
  - apply Z.ltb_lt in E.
    rewrite bind_eq. unfold device_read at 1.
    destruct (pipe_get IDPipeA w); [discriminate|].
    rewrite bind_eq. unfold device_read at 1.
    destruct (pipe_get IDPipeB _); [discriminate|].
    rewrite (int_add_succ idx len) by lia. apply IH; lia.
Qed.

Lemma operator_call_fuel k w w' :
  is_int (len k) -> operator_call k w <> Halt OutOfFuel w'.
Proof.
  intros [Hlo Hhi]. unfold operator_call. rewrite bind_eq.
  pose proof (kernel_loop_fuel (Z.to_nat (len k)) (len k) 0 0 w) as H.
  destruct (kernel_loop _ _ _ _ w) as [v w1|e w1|h w1]; try discriminate.
  intros [= -> ->]. apply (H w'); [unfold INT_MIN; lia | lia | lia | reflexivity].
Qed.

Lemma kernel_output_same k w1 w2 :
  same_value (kernel_loop (Z.to_nat (len k)) (len k) 0 0 w1)
             (kernel_loop (Z.to_nat (len k)) (len k) 0 0 w2) ->
  kernel_output k w1 = kernel_output k w2.
Proof.
  unfold kernel_output, operator_call, bind, same_value.
  destruct (kernel_loop _ _ _ _ w1) as [v1 w1'| |], (kernel_loop _ _ _ _ w2) as [v2 w2'| |];
    try contradiction; try reflexivity.
  intros ->. unfold device_write; simpl. rewrite !last_snoc. reflexivity.
Qed.

(** ** The runtime *)

Lemma first_fault_S n fs :
  first_fault (S n) fs =
    match first_fault 1 fs with
    | Some what => Some what
    | None => first_fault n (drop 1 fs)
    end.
Proof. destruct fs as [|[what|] fs]; simpl; try reflexivity. destruct n; reflexivity. Qed.

Lemma first_fault_add n : forall m fs,
  first_fault (n + m) fs =
    match first_fault n fs with
    | Some what => Some what
    | None => first_fault m (drop n fs)
    end.
Proof.
  induction n as [|n IH]; intros m fs; [reflexivity|].
  destruct fs as [|[what|] fs]; simpl; try reflexivity.
  - destruct m; reflexivity.
  - apply IH.
Qed.

Lemma runtime_call_run w :
  runtime_call w =
    match first_fault 1 (faults w) with
    | Some what => Throw (sycl_exception what) (after_calls 1 w)
    | None => Ok tt (after_calls 1 w)
    end.
Proof.
  unfold runtime_call, after_calls.
  destruct w as [pa pb pc co ce tr fs dn]; simpl.
  destruct fs as [|[what|] fs]; reflexivity.
Qed.

Lemma host_write_run q p v w :
  host_write q p v w =
    match first_fault 1 (faults w) with
    | Some what => Throw (sycl_exception what) (after_calls 1 w)
    | None => Ok tt (log_events [HostWrite p v]
                       (pipe_set p (pipe_get p w ++ [v]) (after_calls 1 w)))
    end.
Proof.
  unfold host_write, bind. rewrite runtime_call_run.
  destruct (first_fault 1 (faults w)); [reflexivity|].
  unfold modify. destruct p; reflexivity.
Qed.

Lemma host_read_run q p w :
  host_read q p w =
    match first_fault 1 (faults w) with
    | Some what => Throw (sycl_exception what) (after_calls 1 w)
    | None =>
        match pipe_get p w with
        | [] => Halt Blocked (after_calls 1 w)
        | v :: rest => Ok v (log_events [HostRead p v] (pipe_set p rest (after_calls 1 w)))
        end
    end.
Proof.
  unfold host_read, bind. rewrite runtime_call_run.
  destruct (first_fault 1 (faults w)); [reflexivity|].
  destruct p; reflexivity.
Qed.

(** ** Arrays *)

Lemma array_store_ok (arr : list Z) i v w :
  0 <= i < Z.of_nat (length arr) ->
  array_store arr i v w = Ok (<[Z.to_nat i := v]> arr) w.
Proof.
  intros H. unfold array_store.
  destruct (0 <=? i) eqn:E1; [|apply Z.leb_gt in E1; lia].
  destruct (i <? Z.of_nat (length arr)) eqn:E2; [|apply Z.ltb_ge in E2; lia].
  reflexivity.
Qed.

Lemma array_load_ok (arr : list Z) i v w :
  0 <= i -> arr !! Z.to_nat i = Some v -> array_load arr i w = Ok v w.
Proof.
  intros H Hv. unfold array_load.
  destruct (0 <=? i) eqn:E1; [|apply Z.leb_gt in E1; lia].
  rewrite Hv. reflexivity.
Qed.

(** ** The feeding loop *)

Lemma seqZ_S i n : seqZ i (Z.of_nat (S n)) = i :: seqZ (i + 1) (Z.of_nat n).
Proof.
  rewrite seqZ_cons by lia. f_equal. f_equal; lia.
Qed.

Lemma take_store_next (arr : list Z) i v :
  0 <= i < Z.of_nat (length arr) ->
  take (Z.to_nat (i + 1)) (<[Z.to_nat i := v]> arr) = take (Z.to_nat i) arr ++ [v].
Proof.
  intros H. replace (Z.to_nat (i + 1)) with (S (Z.to_nat i)) by lia.
  rewrite (take_S_r _ _ v) by (apply list_lookup_insert_eq; lia).
  rewrite take_insert_ge by lia. reflexivity.
Qed.

(** From index [i] with [n] iterations to go, the loop either is stopped by
    the first fault among its [n + n] pipe writes, or stores, sums and
    writes the [n] remaining pairs. *)
Lemma feed_loop_run q count : forall n fuel i a b s w,
  Z.of_nat n = count - i -> 0 <= i -> count <= INT_MAX -> (n <= fuel)%nat ->
  Z.of_nat (length a) = count -> Z.of_nat (length b) = count -> is_int s ->
  match first_fault (n + n) (faults w) with
  | Some what =>
      exists w', feed_loop fuel q count i a b s w = Throw (sycl_exception what) w' /\
                 cerr w' = cerr w
  | None =>
      feed_loop fuel q count i a b s w =
        Ok (take (Z.to_nat i) a ++ fed_A (seqZ i (Z.of_nat n)),
            take (Z.to_nat i) b ++ fed_B count (seqZ i (Z.of_nat n)),
            wrap_int (s + Z.of_nat n * count))
           (mkWorld (pipeA w ++ fed_A (seqZ i (Z.of_nat n)))
                    (pipeB w ++ fed_B count (seqZ i (Z.of_nat n)))
                    (pipeC w) (cout w) (cerr w)
                    (trace w ++ feed_events count (seqZ i (Z.of_nat n)))
                    (drop (n + n) (faults w)) (device_name w))
  end.
Proof.
  induction n as [|n IH]; intros fuel i a b s w Hn Hi Hc Hf Ha Hb Hs.
  - simpl first_fault. replace (first_fault 0 (faults w)) with (@None string)
      by (destruct (faults w); reflexivity).
    assert (E : (i <? count) = false) by (apply Z.ltb_ge; lia).
    destruct fuel; simpl feed_loop; rewrite E; unfold ret, fed_A, fed_B; simpl;
      rewrite !take_ge, !app_nil_r by lia; rewrite Z.add_0_r, wrap_int_id by assumption;
      destruct w; reflexivity.
  - destruct fuel as [|fuel]; [lia|].
    assert (E : (i <? count) = true) by (apply Z.ltb_lt; lia).
    simpl feed_loop. rewrite E.
    erewrite bind_Ok by (apply array_store_ok; lia). cbv beta.
    erewrite bind_Ok by (apply array_store_ok; lia). cbv beta.
    erewrite bind_Ok by (apply array_load_ok; [lia|apply list_lookup_insert_eq; lia]).
    cbv beta.
    erewrite bind_Ok by (apply array_load_ok; [lia|apply list_lookup_insert_eq; lia]).
    cbv beta zeta.
    erewrite bind_Ok by (apply array_load_ok; [lia|apply list_lookup_insert_eq; lia]).
    cbv beta.
    replace (S n + S n)%nat with (S (S (n + n))) by lia.
    rewrite first_fault_S, bind_eq, host_write_run.
    destruct (first_fault 1 (faults w)) as [what|] eqn:E1.
    { eexists; split; reflexivity. }
    cbv beta iota.
    erewrite bind_Ok by (apply array_load_ok; [lia|apply list_lookup_insert_eq; lia]).
    cbv beta.
    rewrite first_fault_S, bind_eq, host_write_run. simpl faults.
    destruct (first_fault 1 (drop 1 (faults w))) as [what|] eqn:E2.
    { eexists; split; reflexivity. }
    cbv beta iota.
    assert (Hsub : int_sub count i = count - i)
      by (apply wrap_int_id; unfold is_int, INT_MIN; lia).
    assert (Hsum : int_add i (int_sub count i) = count).
    { rewrite Hsub. unfold int_add. replace (i + (count - i)) with count by lia.
      apply wrap_int_id. unfold is_int, INT_MIN. lia. }
    rewrite Hsum, Hsub, (int_add_succ i count) by (unfold INT_MIN; lia).
    match goal with
    | |- context [feed_loop fuel q count (i + 1) ?a1 ?b1 ?s1 ?w1] =>
        specialize (IH fuel (i + 1) a1 b1 s1 w1); remember w1 as w2 eqn:Ew2
    end.
    assert (Hfs : faults w2 = drop 2 (faults w))
      by (subst w2; simpl; rewrite drop_drop; reflexivity).
    rewrite Hfs in IH. rewrite !length_insert in IH.
    lapply IH; [clear IH; intros IH|lia].
    do 5 (lapply IH; [clear IH; intros IH|lia]).
    lapply IH; [clear IH; intros IH|apply wrap_int_range].
    rewrite (drop_drop (faults w) 1 1). change (1 + 1)%nat with 2%nat.
    destruct (first_fault (n + n) (drop 2 (faults w))) as [what|] eqn:E3.
    { destruct IH as (w' & Hrun & Hw'). rewrite Hrun. eexists; split; [reflexivity|].
      rewrite Hw', Ew2. reflexivity. }
    rewrite IH. clear IH. subst w2. rewrite drop_drop. simpl.
    rewrite !take_store_next by lia. rewrite seqZ_S. unfold fed_A, fed_B. simpl.
    rewrite <- !app_assoc. simpl.
    unfold int_add. rewrite wrap_int_add_l.
    replace (s + count + Z.of_nat n * count) with (s + Z.of_nat (S n) * count) by lia.
    reflexivity.
Qed.

(** ** The host program *)

Lemma queue_ctor_run sel w :
  queue_ctor sel w =
    match first_fault 1 (faults w) with
    | Some what => Throw (sycl_exception what) (after_calls 1 w)
    | None => Ok {| queue_selector := sel |} (after_calls 1 w)
    end.
Proof.
  unfold queue_ctor. rewrite bind_eq, runtime_call_run.
  destruct (first_fault 1 (faults w)); reflexivity.
Qed.

Lemma get_device_run q w :
  get_device q w =
    match first_fault 1 (faults w) with
    | Some what => Throw (sycl_exception what) (after_calls 1 w)
    | None => Ok (queue_selector q) (after_calls 1 w)
    end.
Proof.
  unfold get_device. rewrite bind_eq, runtime_call_run.
  destruct (first_fault 1 (faults w)); reflexivity.
Qed.

Lemma get_info_name_run device w :
  get_info_name device w =
    match first_fault 1 (faults w) with
    | Some what => Throw (sycl_exception what) (after_calls 1 w)
    | None => Ok (device_name w device) (after_calls 1 w)
    end.
Proof.
  unfold get_info_name. rewrite bind_eq, runtime_call_run.
  destruct (first_fault 1 (faults w)); reflexivity.
Qed.

Lemma single_task_run q kernel w :
  single_task q kernel w =
    match first_fault 1 (faults w) with
    | Some what => Throw (sycl_exception what) (after_calls 1 w)
    | None => Ok kernel (log_events [KernelLaunch] (after_calls 1 w))
    end.
Proof.
  unfold single_task. rewrite bind_eq, runtime_call_run.
  destruct (first_fault 1 (faults w)); reflexivity.
Qed.

Lemma wait_run e w :
  wait e w =
    match first_fault 1 (faults w) with
    | Some what => Throw (sycl_exception what) (after_calls 1 w)
    | None => (e;; modify (log_events [KernelDone])) (after_calls 1 w)
    end.
Proof.
  unfold wait. rewrite bind_eq, runtime_call_run.
  destruct (first_fault 1 (faults w)); reflexivity.
Qed.

Lemma length_fed_A count : length (fed_A (seqZ 0 count)) = Z.to_nat count.
Proof. unfold fed_A. apply length_seqZ. Qed.

Lemma length_fed_B count : length (fed_B count (seqZ 0 count)) = Z.to_nat count.
Proof. unfold fed_B. rewrite length_fmap. apply length_seqZ. Qed.

Lemma hd_tail_snoc (l : list Z) v : l ++ [v] = hd 0 (l ++ [v]) :: tail (l ++ [v]).
Proof. destruct l; reflexivity. Qed.

(** Brings the world of the goal back to one record of its fields. *)
Ltac norm_world :=
  unfold after_calls, log_events, put_cout, set_faults, pipe_set, pipe_get;
  cbn [pipeA pipeB pipeC cout cerr trace faults device_name].

(** One runtime call of [main_try]: either it is the one that faults, and
    the run is over, or the run goes on after it. *)
Ltac runtime_step run_lemma :=
  rewrite first_fault_S, bind_eq, run_lemma; simpl faults;
  match goal with
  | |- context [first_fault 1 ?fs] =>
      let E := fresh "E" in
      destruct (first_fault 1 fs) as [?what|] eqn:E;
      [eexists; split; reflexivity|cbv beta iota]
  end.

Lemma modify_run f w : modify f w = Ok tt (f w).
Proof. reflexivity. Qed.

Lemma print_cout_run ts w : print_cout ts w = Ok tt (put_cout ts w).
Proof. reflexivity. Qed.

Lemma new_int_array_run count w :
  0 <= count -> new_int_array count w = Ok (replicate (Z.to_nat count) 0) w.
Proof.
  intros H. unfold new_int_array.
  destruct (count <? 0) eqn:E; [apply Z.ltb_lt in E; lia|reflexivity].
Qed.

Lemma feeding_world_reached sel w :
  put_cout [Str (device_name w sel); Endl]
    (after_calls 1 (put_cout [Str "Running on device: "]
                      (after_calls 1 (after_calls 1 w)))) =
  feeding_world sel w.
Proof.
  unfold feeding_world, put_cout, after_calls, set_faults. simpl.
  rewrite !drop_drop, <- app_assoc. reflexivity.
Qed.

Lemma main_try_run sel count w :
  0 <= count <= INT_MAX ->
  match first_fault (main_calls count) (faults w) with
  | Some what =>
      exists w', main_try sel count w = Throw (sycl_exception what) w' /\
                 cerr w' = cerr w
  | None =>
      exists a b expected_sum w1,
        feed_loop (Z.to_nat count) {| queue_selector := sel |} count 0
          (replicate (Z.to_nat count) 0) (replicate (Z.to_nat count) 0) 0
          (feeding_world sel w) = Ok (a, b, expected_sum) w1 /\
        expected_sum = wrap_int (count * count) /\
        main_try sel count w =
          Ok (if host_calc count w =? expected_sum then EXIT_SUCCESS else EXIT_FAILURE)
             (final_world sel count expected_sum w)
  end.
Proof.
  intros Hc. unfold main_try, main_calls.
  change (3 + (Z.to_nat count + Z.to_nat count) + 3)%nat
    with (S (S (S (Z.to_nat count + Z.to_nat count + 3)))).
  runtime_step queue_ctor_run.
  runtime_step get_device_run.
  rewrite bind_eq, print_cout_run. cbv beta iota.
  runtime_step get_info_name_run.
  simpl device_name. simpl queue_selector.
  rewrite bind_eq, print_cout_run. cbv beta iota.
  rewrite feeding_world_reached, !drop_drop.
  change (1 + (1 + 1))%nat with 3%nat.
  rewrite bind_eq, new_int_array_run by lia. cbv beta iota.
  rewrite bind_eq, new_int_array_run by lia. cbv beta iota.
  rewrite first_fault_add, bind_eq.
  pose proof (feed_loop_run {| queue_selector := sel |} count (Z.to_nat count)
                (Z.to_nat count) 0 (replicate (Z.to_nat count) 0)
                (replicate (Z.to_nat count) 0) 0 (feeding_world sel w)) as Hfeed.
  rewrite !length_replicate in Hfeed.
  lapply Hfeed; [clear Hfeed; intros Hfeed|lia].
  do 5 (lapply Hfeed; [clear Hfeed; intros Hfeed|lia]).
  lapply Hfeed; [clear Hfeed; intros Hfeed|unfold is_int, INT_MIN, INT_MAX; lia].
  simpl faults in Hfeed. rewrite Z2Nat.id in Hfeed by lia.
  simpl take in Hfeed. simpl in Hfeed.
  destruct (first_fault (Z.to_nat count + Z.to_nat count) (drop 3 (faults w)))
    as [what|] eqn:E2.
  { destruct Hfeed as (w' & Hrun & Hw'). rewrite Hrun.
    eexists; split; [reflexivity|exact Hw']. }
  rewrite Hfeed. cbv beta iota zeta. rewrite Z.add_0_l.
  rewrite bind_eq, print_cout_run. cbv beta iota. norm_world.
  runtime_step single_task_run. norm_world.
  runtime_step wait_run. norm_world.
  rewrite bind_eq.
  erewrite (operator_call_ok count (kernel_reads_A count w) (kernel_reads_B count w)
              (drop (Z.to_nat count) (pipeA w ++ fed_A (seqZ 0 count)))
              (drop (Z.to_nat count) (pipeB w ++ fed_B count (seqZ 0 count))));
    [ | lia
      | unfold kernel_reads_A; rewrite length_take, length_app, length_fed_A; lia
      | unfold kernel_reads_B; rewrite length_take, length_app, length_fed_B; lia
      | unfold kernel_reads_A; simpl; rewrite take_drop; reflexivity
      | unfold kernel_reads_B; simpl; rewrite take_drop; reflexivity ].
  cbv beta iota. norm_world. rewrite modify_run. cbv beta iota. norm_world.
  rewrite bind_eq, host_read_run. norm_world.
  match goal with
  | |- context [first_fault 1 ?fs] =>
      destruct (first_fault 1 fs) as [what|] eqn:E5;
      [eexists; split; reflexivity|]
  end.
  exists (fed_A (seqZ 0 count)), (fed_B count (seqZ 0 count)), (wrap_int (count * count)).
  eexists. split; [reflexivity|]. split; [reflexivity|].
  fold (kernel_total count w).
  rewrite (hd_tail_snoc (pipeC w)) at 1. fold (host_calc count w).
  cbv beta iota. norm_world.
  unfold final_world, run_output, run_events, main_calls.
  destruct (host_calc count w =? wrap_int (count * count)); simpl negb; cbv iota;
    unfold bind, print_cout, modify, ret, delete_array, put_cout;
    cbn [pipeA pipeB pipeC cout cerr trace faults device_name];
    (f_equal; f_equal;
     [ rewrite <- !app_assoc; reflexivity
     | rewrite <- !app_assoc; reflexivity
     | rewrite !drop_drop; f_equal; lia ]).
Qed.

(** A negative [count] never gets past [new int[count]]. *)
Lemma main_try_negative sel count w :
  count < 0 -> exists e w', main_try sel count w = Throw e w'.
Proof.
  intros Hc. unfold main_try.
  rewrite bind_eq, queue_ctor_run.
  destruct (first_fault 1 (faults w)); [eexists _, _; reflexivity|]. cbv beta iota.
  rewrite bind_eq, get_device_run.
  destruct (first_fault 1 _); [eexists _, _; reflexivity|]. cbv beta iota.
  rewrite bind_eq, print_cout_run. cbv beta iota.
  rewrite bind_eq, get_info_name_run.
  destruct (first_fault 1 _); [eexists _, _; reflexivity|]. cbv beta iota.
  rewrite bind_eq, print_cout_run. cbv beta iota.
  rewrite bind_eq. unfold new_int_array.
  destruct (count <? 0) eqn:E; [|apply Z.ltb_ge in E; lia].
  eexists _, _; reflexivity.
Qed.

(** What a run that returns from [main] has done. *)
Lemma main_with_exited sel count w code w' :
  count <= INT_MAX ->
  main_with sel count w = (Exited code, w') ->
  0 <= count /\
  first_fault (main_calls count) (faults w) = None /\
  exists a b expected_sum w1,
    feed_loop (Z.to_nat count) {| queue_selector := sel |} count 0
      (replicate (Z.to_nat count) 0) (replicate (Z.to_nat count) 0) 0
      (feeding_world sel w) = Ok (a, b, expected_sum) w1 /\
    expected_sum = wrap_int (count * count) /\
    code = (if host_calc count w =? expected_sum then EXIT_SUCCESS else EXIT_FAILURE) /\
    w' = final_world sel count expected_sum w.
Proof.
  intros Hc Hrun. unfold main_with in Hrun.
  destruct (Z.lt_ge_cases count 0) as [Hneg|Hpos].
  { destruct (main_try_negative sel count w Hneg) as (e & w0 & He).
    rewrite He in Hrun. destruct e; discriminate. }
  split; [exact Hpos|].
  pose proof (main_try_run sel count w (conj Hpos Hc)) as H.
  destruct (first_fault (main_calls count) (faults w)) as [what|].
  { destruct H as (w0 & He & _). rewrite He in Hrun. discriminate. }
  split; [reflexivity|].
  destruct H as (a & b & e & w1 & Hfeed & He & Hmain).
  rewrite Hmain in Hrun. injection Hrun as <- <-.
  exists a, b, e, w1. auto.
Qed.

(** * The kernel contract *)

(** C2: for every count N >= 0 (an [int]), with N values waiting in each
    input pipe, the invocation returns after exactly N reads from pipe A and
    N reads from pipe B, taken in pairs, and then exactly one write to pipe C,
    of the running total that starts at zero and adds the sum of each pair. *)
Theorem operator_call_contract (N : Z) (xs ys ra rb : list Z) (w : world) :
  0 <= N <= INT_MAX ->
  Z.of_nat (length xs) = N -> Z.of_nat (length ys) = N ->
  pipeA w = xs ++ ra -> pipeB w = ys ++ rb ->
  exists w' evs,
    operator_call {| len := N |} w = Ok tt w' /\
    trace w' = trace w ++ evs /\
    evs = paired_reads xs ys ++
          [DevWrite IDPipeC (foldl int_add 0 (zip_with int_add xs ys))] /\
    count_events (is_dev_read IDPipeA) evs = Z.to_nat N /\
    count_events (is_dev_read IDPipeB) evs = Z.to_nat N /\
    count_events (is_dev_write IDPipeC) evs = 1%nat /\
    length evs = (Z.to_nat N + Z.to_nat N + 1)%nat /\
    pipeA w' = ra /\ pipeB w' = rb /\
    pipeC w' = pipeC w ++ [foldl int_add 0 (zip_with int_add xs ys)].
Proof.
  intros HN Hx Hy HA HB.
  eexists _, _. split; [apply (operator_call_ok N xs ys ra rb); assumption|].
  simpl. split; [reflexivity|]. split; [reflexivity|].
  assert (Hl : length ys = length xs) by lia.
  rewrite !count_events_app, count_paired_reads_A, count_paired_reads_B by exact Hl.
  rewrite (count_paired_reads_other (is_dev_write IDPipeC)) by reflexivity.
  repeat split; try (unfold count_events; simpl; lia).
  rewrite length_app. simpl.
  clear HA HB. revert ys Hy Hl. subst N.
  induction xs as [|x xs IH]; intros [|y ys] Hy Hl; simpl in *; try lia.
  specialize (IH ltac:(lia) ys ltac:(lia) ltac:(lia)). lia.
Qed.

(** C5: with count 0 the invocation reads nothing, leaves the loop with the
    accumulator at 0, and does one write, of 0, to pipe C. *)
Theorem operator_call_zero (w : world) :
  kernel_loop (Z.to_nat 0) 0 0 0 w = Ok 0 w /\
  operator_call {| len := 0 |} w =
    Ok tt (mkWorld (pipeA w) (pipeB w) (pipeC w ++ [0]) (cout w) (cerr w)
             (trace w ++ [DevWrite IDPipeC 0]) (faults w) (device_name w)).
Proof. split; reflexivity. Qed.

(** C4: exchanging the contents of the two input pipes does not change the
    value the invocation writes to pipe C (nor whether it gets to write). *)
Theorem operator_call_inputs_swapped (k : SimpleVAddKernel) (w : world) :
  kernel_output k (swap_inputs w) = kernel_output k w.
Proof.
  apply kernel_output_same, kernel_loop_swapped.
  split; reflexivity.
Qed.

(** C9: the value written to pipe C is a function of the count and of the
    first [count] values of each input pipe only: two invocations that agree
    on these write the same value, whatever else differs between their
    worlds. *)
Theorem operator_call_deterministic (k : SimpleVAddKernel) (w1 w2 : world) :
  take (Z.to_nat (len k)) (pipeA w1) = take (Z.to_nat (len k)) (pipeA w2) ->
  take (Z.to_nat (len k)) (pipeB w1) = take (Z.to_nat (len k)) (pipeB w2) ->
  kernel_output k w1 = kernel_output k w2.
Proof.
  intros HA HB. apply kernel_output_same, kernel_loop_agree; assumption.
Qed.

(** C10: for every count N >= 0 and any input sequences [xs] and [ys] of
    length N, the value written to pipe C is the [int] congruent modulo 2^32
    to the sum over i of [xs !! i + ys !! i]. *)
Theorem operator_call_sum_mod_2_32 (N : Z) (xs ys ra rb : list Z) (w : world) :
  0 <= N <= INT_MAX ->
  Z.of_nat (length xs) = N -> Z.of_nat (length ys) = N ->
  pipeA w = xs ++ ra -> pipeB w = ys ++ rb ->
  kernel_output {| len := N |} w = Some (sum_mod_2_32 xs ys) /\
  is_int (sum_mod_2_32 xs ys) /\
  sum_mod_2_32 xs ys mod 2 ^ 32 = sum_of_pairs xs ys mod 2 ^ 32.
Proof.
  intros HN Hx Hy HA HB. unfold kernel_output, sum_mod_2_32.
  rewrite (operator_call_ok N xs ys ra rb) by assumption. simpl.
  rewrite last_snoc, running_total_spec by (unfold is_int, INT_MIN, INT_MAX; lia).
  rewrite Z.add_0_l. split; [reflexivity|].
  split; [apply wrap_int_range|apply wrap_int_mod].
Qed.

(** * The harness *)

Lemma first_fault_nil n : first_fault n [] = None.
Proof. destruct n; reflexivity. Qed.

(** The feeding loop as [main_try] enters it, when no pipe write faults. *)
Lemma feed_loop_expected sel count w :
  0 <= count <= INT_MAX ->
  first_fault (Z.to_nat count + Z.to_nat count) (faults w) = None ->
  feed_loop (Z.to_nat count) {| queue_selector := sel |} count 0
    (replicate (Z.to_nat count) 0) (replicate (Z.to_nat count) 0) 0 w =
  Ok (fed_A (seqZ 0 count), fed_B count (seqZ 0 count), wrap_int (count * count))
     (mkWorld (pipeA w ++ fed_A (seqZ 0 count)) (pipeB w ++ fed_B count (seqZ 0 count))
        (pipeC w) (cout w) (cerr w) (trace w ++ feed_events count (seqZ 0 count))
        (drop (Z.to_nat count + Z.to_nat count) (faults w)) (device_name w)).
Proof.
  intros Hc Hff.
  pose proof (feed_loop_run {| queue_selector := sel |} count (Z.to_nat count)
                (Z.to_nat count) 0 (replicate (Z.to_nat count) 0)
                (replicate (Z.to_nat count) 0) 0 w) as H.
  rewrite !length_replicate, Hff, Z2Nat.id in H by lia.
  rewrite H; try lia; [|unfold is_int, INT_MIN, INT_MAX; lia].
  simpl. rewrite Z.add_0_l. reflexivity.
Qed.

Lemma count_feed_events_A count js :
  count_events (is_host_write IDPipeA) (feed_events count js) = length js.
Proof.
  induction js as [|j js IH]; [reflexivity|].
  unfold count_events in *. simpl. rewrite IH. reflexivity.
Qed.

Lemma count_feed_events_B count js :
  count_events (is_host_write IDPipeB) (feed_events count js) = length js.
Proof.
  induction js as [|j js IH]; [reflexivity|].
  unfold count_events in *. simpl. rewrite IH. reflexivity.
Qed.

Lemma count_feed_events_other f count js :
  (forall p v, p <> IDPipeC -> f (HostWrite p v) = false) ->
  count_events f (feed_events count js) = O.
Proof.
  intros Hf. induction js as [|j js IH]; [reflexivity|].
  unfold count_events in *. simpl. rewrite !Hf by discriminate. exact IH.
Qed.

Lemma length_kernel_reads_A count w :
  0 <= count -> length (kernel_reads_A count w) = Z.to_nat count.
Proof.
  intros H. unfold kernel_reads_A.
  rewrite length_take, length_app, length_fed_A; lia.
Qed.

Lemma length_kernel_reads_B count w :
  0 <= count -> length (kernel_reads_B count w) = Z.to_nat count.
Proof.
  intros H. unfold kernel_reads_B.
  rewrite length_take, length_app, length_fed_B; lia.
Qed.

(** C1 (as amended): for every count > 0 whose square fits an [int], the
    harness, which stores [a[i] = i] and [b[i] = count - i] for every i in
    [0, count), leaves its feeding loop with an expected total of
    [count * count]. *)
Theorem harness_expected_sum (sel : selector) (count : Z) (w : world) :
  0 < count -> count * count <= INT_MAX ->
  first_fault (Z.to_nat count + Z.to_nat count) (faults w) = None ->
  exists a b w1,
    feed_loop (Z.to_nat count) {| queue_selector := sel |} count 0
      (replicate (Z.to_nat count) 0) (replicate (Z.to_nat count) 0) 0 w =
      Ok (a, b, count * count) w1 /\
    forall i, 0 <= i < count ->
      a !! Z.to_nat i = Some i /\ b !! Z.to_nat i = Some (count - i).
Proof.
  intros Hpos Hsq Hff.
  assert (Hc : 0 <= count <= INT_MAX) by nia.
  eexists _, _, _. split.
  - rewrite (feed_loop_expected sel count w Hc Hff).
    rewrite wrap_int_id by (unfold is_int, INT_MIN; nia). reflexivity.
  - intros i Hi. unfold fed_A, fed_B. rewrite list_lookup_fmap.
    rewrite lookup_seqZ_lt by lia. simpl. split; f_equal; lia.
Qed.

(** C3: when [main] returns, its exit code is 0 exactly when the one value
    it read from pipe C equals the expected sum its own feeding loop
    computed; otherwise the code is [EXIT_FAILURE], which is not 0. *)
Theorem exit_code_iff_match (sel : selector) (count : Z) (w : world)
    (code : Z) (w' : world) :
  count <= INT_MAX ->
  main_with sel count w = (Exited code, w') ->
  exists a b expected_sum w1 calc before,
    feed_loop (Z.to_nat count) {| queue_selector := sel |} count 0
      (replicate (Z.to_nat count) 0) (replicate (Z.to_nat count) 0) 0
      (feeding_world sel w) = Ok (a, b, expected_sum) w1 /\
    trace w' = trace w ++ before ++ [HostRead IDPipeC calc] /\
    count_events (is_host_read IDPipeC) before = O /\
    (code = 0 <-> calc = expected_sum) /\
    (calc <> expected_sum -> code = EXIT_FAILURE /\ code <> 0).
Proof.
  intros Hc Hrun.
  destruct (main_with_exited sel count w code w' Hc Hrun)
    as (Hpos & _ & a & b & e & w1 & Hfeed & _ & Hcode & ->).
  exists a, b, e, w1, (host_calc count w).
  exists (feed_events count (seqZ 0 count) ++ [KernelLaunch] ++
          paired_reads (kernel_reads_A count w) (kernel_reads_B count w) ++
          [DevWrite IDPipeC (kernel_total count w); KernelDone]).
  split; [exact Hfeed|]. split.
  { simpl. unfold run_events. rewrite <- !app_assoc. simpl.
    rewrite <- !app_assoc. reflexivity. }
  split.
  { rewrite !count_events_app, count_feed_events_other, count_paired_reads_other;
      reflexivity. }
  subst code. unfold EXIT_SUCCESS, EXIT_FAILURE.
  destruct (host_calc count w =? e) eqn:E.
  - apply Z.eqb_eq in E. split; [tauto|]. intros H. contradiction.
  - apply Z.eqb_neq in E. split; [split; [discriminate|contradiction]|].
    intros _. split; [reflexivity|discriminate].
Qed.

(** C6: in every run that returns from [main], pipe C is written exactly
    once, by the kernel, and read exactly once, by the host after the
    kernel is done; nothing else touches it. *)
Theorem output_pipe_once (sel : selector) (count : Z) (w : world)
    (code : Z) (w' : world) :
  count <= INT_MAX ->
  main_with sel count w = (Exited code, w') ->
  exists evs before v calc,
    trace w' = trace w ++ evs /\
    evs = before ++ [DevWrite IDPipeC v; KernelDone; HostRead IDPipeC calc] /\
    count_events (is_dev_write IDPipeC) evs = 1%nat /\
    count_events (is_host_read IDPipeC) evs = 1%nat /\
    count_events (is_host_write IDPipeC) evs = O /\
    count_events (is_dev_read IDPipeC) evs = O.
Proof.
  intros Hc Hrun.
  destruct (main_with_exited sel count w code w' Hc Hrun)
    as (Hpos & _ & a & b & e & w1 & _ & _ & _ & ->).
  exists (run_events count w).
  exists (feed_events count (seqZ 0 count) ++ [KernelLaunch] ++
          paired_reads (kernel_reads_A count w) (kernel_reads_B count w)).
  exists (kernel_total count w), (host_calc count w).
  split; [reflexivity|]. split.
  { unfold run_events. rewrite <- !app_assoc. reflexivity. }
  unfold run_events.
  rewrite !count_events_app, !count_feed_events_other by (intros [] ? ?; done).
  rewrite !count_paired_reads_other by reflexivity.
  repeat split; reflexivity.
Qed.

(** C7: in every run that returns from [main], the host has written
    [count] values to pipe A and [count] values to pipe B before the kernel
    is launched, and the kernel then reads [count] values from each; the
    host writes nothing after the launch and the kernel reads nothing
    before it. *)
Theorem feed_matches_reads (sel : selector) (count : Z) (w : world)
    (code : Z) (w' : world) :
  count <= INT_MAX ->
  main_with sel count w = (Exited code, w') ->
  exists before after,
    trace w' = trace w ++ before ++ [KernelLaunch] ++ after /\
    count_events (is_host_write IDPipeA) before = Z.to_nat count /\
    count_events (is_host_write IDPipeB) before = Z.to_nat count /\
    count_events (is_dev_read IDPipeA) after = Z.to_nat count /\
    count_events (is_dev_read IDPipeB) after = Z.to_nat count /\
    count_events (is_host_write IDPipeA) after = O /\
    count_events (is_host_write IDPipeB) after = O /\
    count_events (is_dev_read IDPipeA) before = O /\
    count_events (is_dev_read IDPipeB) before = O.
Proof.
  intros Hc Hrun.
  destruct (main_with_exited sel count w code w' Hc Hrun)
    as (Hpos & _ & a & b & e & w1 & _ & _ & _ & ->).
  exists (feed_events count (seqZ 0 count)).
  exists (paired_reads (kernel_reads_A count w) (kernel_reads_B count w) ++
          [DevWrite IDPipeC (kernel_total count w); KernelDone;
           HostRead IDPipeC (host_calc count w)]).
  split; [reflexivity|].
  rewrite count_feed_events_A, count_feed_events_B, length_seqZ.
  rewrite !count_events_app.
  rewrite count_paired_reads_A, count_paired_reads_B
    by (rewrite length_kernel_reads_A, length_kernel_reads_B by lia; reflexivity).
  rewrite length_kernel_reads_A by lia.
  rewrite !count_paired_reads_other by reflexivity.
  rewrite !count_feed_events_other by reflexivity.
  unfold count_events; simpl. repeat split; lia.
Qed.


(** * The statements at concrete runs *)

Example main_passes :
  fst (main fpga_emulator_selector_v (start [])) = Exited 0.
Proof. vm_compute. reflexivity. Qed.

(** A value left in pipe C by someone else is what [main] reads back. *)
Example main_fails_on_stale_output :
  fst (main fpga_emulator_selector_v (pipe_set IDPipeC [7] (start []))) = Exited 1.
Proof. vm_compute. reflexivity. Qed.

(** The label is printed before the name is asked for. *)
Example label_precedes_name_query :
  main fpga_selector_v (start [None; None; Some "no such device"%string]) =
    (Terminated,
     mkWorld [] [] [] [Str "Running on device: "]
       (diagnostic "no such device") [] [] (device_name (start []))).
Proof. vm_compute. reflexivity. Qed.

Example main_terminates_on_fault :
  fst (main fpga_selector_v (start [None; None; None; Some "pipe write failed"%string]))
  = Terminated.
Proof. vm_compute. reflexivity. Qed.

Example kernel_adds_two_pairs :
  kernel_output {| len := 2 |} two_pairs_left = Some 33 /\
  kernel_output {| len := 2 |} (swap_inputs two_pairs_left) = Some 33.
Proof. split; reflexivity. Qed.

Example kernel_wraps_around :
  kernel_output {| len := 1 |}
    (pipe_set IDPipeB [1] (pipe_set IDPipeA [INT_MAX] (start []))) = Some INT_MIN.
Proof. reflexivity. Qed.

Example kernel_blocks_on_short_input :
  operator_call {| len := 4 |} two_pairs_left = Halt Blocked
    (mkWorld [] [] [] [] [] [DevRead IDPipeA 1; DevRead IDPipeB 10;
                             DevRead IDPipeA 2; DevRead IDPipeB 20;
                             DevRead IDPipeA 3; DevRead IDPipeB 30] []
       (device_name two_pairs_left)).
Proof. reflexivity. Qed.

(** Counterexample to C1 as stated: at count = 65536 every pair still sums
    to 65536, but the [int] accumulator has wrapped around to 0 when the
    loop ends, which is not 65536 * 65536. *)
Lemma expected_sum_wraps_at_65536 :
  0 < 65536 /\
  feed_loop (Z.to_nat 65536) {| queue_selector := fpga_emulator_selector_v |} 65536 0
    (replicate (Z.to_nat 65536) 0) (replicate (Z.to_nat 65536) 0) 0 (start []) =
    Ok (fed_A (seqZ 0 65536), fed_B 65536 (seqZ 0 65536), 0)
       (mkWorld (fed_A (seqZ 0 65536)) (fed_B 65536 (seqZ 0 65536)) [] [] []
          (feed_events 65536 (seqZ 0 65536)) [] (device_name (start []))) /\
  0 <> 65536 * 65536.
Proof.
  split; [lia|]. split; [|lia].
  rewrite (feed_loop_expected fpga_emulator_selector_v 65536 (start []))
    by (unfold INT_MAX; first [lia | apply first_fault_nil]).
  change (faults (start [])) with (@nil (option string)).
  rewrite drop_nil. reflexivity.
Qed.

Lemma harness_expected_sum_witness :
  0 < 256 /\ 256 * 256 <= INT_MAX /\
  exists a b w1,
    feed_loop (Z.to_nat 256) {| queue_selector := fpga_emulator_selector_v |} 256 0
      (replicate (Z.to_nat 256) 0) (replicate (Z.to_nat 256) 0) 0 (start []) =
      Ok (a, b, 65536) w1 /\
    forall i, 0 <= i < 256 ->
      a !! Z.to_nat i = Some i /\ b !! Z.to_nat i = Some (256 - i).
Proof.
  split; [lia|]. split; [unfold INT_MAX; lia|].
  apply (harness_expected_sum fpga_emulator_selector_v 256 (start []));
    [lia | unfold INT_MAX; lia | reflexivity].
Defined.

Lemma operator_call_contract_witness :
  exists w' evs,
    operator_call {| len := 2 |} two_pairs_left = Ok tt w' /\
    trace w' = trace two_pairs_left ++ evs /\
    evs = [DevRead IDPipeA 1; DevRead IDPipeB 10; DevRead IDPipeA 2; DevRead IDPipeB 20;
           DevWrite IDPipeC 33] /\
    count_events (is_dev_read IDPipeA) evs = 2%nat /\
    count_events (is_dev_read IDPipeB) evs = 2%nat /\
    count_events (is_dev_write IDPipeC) evs = 1%nat /\
    length evs = 5%nat /\
    pipeA w' = [3] /\ pipeB w' = [30] /\ pipeC w' = [33].
Proof.
  apply (operator_call_contract 2 [1; 2] [10; 20] [3] [30] two_pairs_left);
    [unfold INT_MAX; lia | reflexivity | reflexivity | reflexivity | reflexivity].
Defined.

Lemma operator_call_deterministic_witness :
  kernel_output {| len := 2 |} two_pairs_left =
  kernel_output {| len := 2 |}
    (mkWorld [1; 2] [10; 20; 7; 7] [5] [Endl] [] [KernelDone] [Some "x"%string]
       (fun _ => "other"%string)).
Proof.
  apply operator_call_deterministic; reflexivity.
Defined.

Lemma operator_call_sum_mod_2_32_witness :
  kernel_output {| len := 2 |}
    (pipe_set IDPipeB [1; 7] (pipe_set IDPipeA [2147483647; 5] (start []))) =
    Some (-2147483636) /\
  is_int (-2147483636) /\
  (-2147483636) mod 2 ^ 32 = (2147483647 + 1 + (5 + 7)) mod 2 ^ 32.
Proof.
  apply (operator_call_sum_mod_2_32 2 [2147483647; 5] [1; 7] [] []
           (pipe_set IDPipeB [1; 7] (pipe_set IDPipeA [2147483647; 5] (start []))));
    [unfold INT_MAX; lia | reflexivity | reflexivity | reflexivity | reflexivity].
Defined.

Lemma exit_code_iff_match_witness :
  kVectorSize <= INT_MAX /\
  main_with fpga_emulator_selector_v kVectorSize stale_output =
    (Exited 1, snd (main_with fpga_emulator_selector_v kVectorSize stale_output)) /\
  exists a b expected_sum w1 calc before,
    feed_loop (Z.to_nat kVectorSize) {| queue_selector := fpga_emulator_selector_v |}
      kVectorSize 0
      (replicate (Z.to_nat kVectorSize) 0) (replicate (Z.to_nat kVectorSize) 0) 0
      (feeding_world fpga_emulator_selector_v stale_output) =
      Ok (a, b, expected_sum) w1 /\
    trace (snd (main_with fpga_emulator_selector_v kVectorSize stale_output)) =
      trace stale_output ++ before ++ [HostRead IDPipeC calc] /\
    count_events (is_host_read IDPipeC) before = O /\
    (1 = 0 <-> calc = expected_sum) /\
    (calc <> expected_sum -> 1 = EXIT_FAILURE /\ 1 <> 0).
Proof.
  split; [unfold kVectorSize, INT_MAX; lia|].
  split; [vm_compute; reflexivity|].
  apply (exit_code_iff_match fpga_emulator_selector_v kVectorSize stale_output 1
           (snd (main_with fpga_emulator_selector_v kVectorSize stale_output)));
    [unfold kVectorSize, INT_MAX; lia | vm_compute; reflexivity].
Defined.

Lemma output_pipe_once_witness :
  main_with fpga_emulator_selector_v kVectorSize (start []) =
    (Exited 0, snd (main fpga_emulator_selector_v (start []))) /\
  exists evs before v calc,
    trace (snd (main fpga_emulator_selector_v (start []))) = trace (start []) ++ evs /\
    evs = before ++ [DevWrite IDPipeC v; KernelDone; HostRead IDPipeC calc] /\
    count_events (is_dev_write IDPipeC) evs = 1%nat /\
    count_events (is_host_read IDPipeC) evs = 1%nat /\
    count_events (is_host_write IDPipeC) evs = O /\
    count_events (is_dev_read IDPipeC) evs = O.
Proof.
  split; [vm_compute; reflexivity|].
  apply (output_pipe_once fpga_emulator_selector_v kVectorSize (start []) 0
           (snd (main fpga_emulator_selector_v (start []))));
    [unfold kVectorSize, INT_MAX; lia | vm_compute; reflexivity].
Defined.

Lemma feed_matches_reads_witness :
  main_with fpga_emulator_selector_v kVectorSize (start []) =
    (Exited 0, snd (main fpga_emulator_selector_v (start []))) /\
  exists before after,
    trace (snd (main fpga_emulator_selector_v (start []))) =
      trace (start []) ++ before ++ [KernelLaunch] ++ after /\
    count_events (is_host_write IDPipeA) before = 256%nat /\
    count_events (is_host_write IDPipeB) before = 256%nat /\
    count_events (is_dev_read IDPipeA) after = 256%nat /\
    count_events (is_dev_read IDPipeB) after = 256%nat /\
    count_events (is_host_write IDPipeA) after = O /\
    count_events (is_host_write IDPipeB) after = O /\
    count_events (is_dev_read IDPipeA) before = O /\
    count_events (is_dev_read IDPipeB) before = O.
Proof.
  split; [vm_compute; reflexivity|].
  apply (feed_matches_reads fpga_emulator_selector_v kVectorSize (start []) 0
           (snd (main fpga_emulator_selector_v (start []))));
    [unfold kVectorSize, INT_MAX; lia | vm_compute; reflexivity].
Defined.



(** * Further properties of the kernel *)

Lemma world_of_bind {A B} (m : M A) (k : A -> M B) w :
  world_of (bind m k w) =
    match m w with
    | Ok a w' => world_of (k a w')
    | Throw _ w' => w'
    | Halt _ w' => w'
    end.
Proof. unfold bind. destruct (m w); reflexivity. Qed.

Lemma reads_only_refl w : reads_only w w.
Proof.
  repeat split. exists []. split; [symmetry; apply app_nil_r|constructor].
Qed.

Lemma reads_only_read p v rest w w' :
  p <> IDPipeC ->
  reads_only (log_events [DevRead p v] (pipe_set p rest w)) w' -> reads_only w w'.
Proof.
  intros Hp (HC & Hout & Herr & Hf & evs & Htr & Hevs).
  destruct p; try contradiction; simpl in *;
    (repeat split; try assumption;
     eexists (_ :: evs); split;
     [rewrite Htr, <- app_assoc; reflexivity|constructor; [reflexivity|assumption]]).
Qed.

(** However the loop ends, it has only read the input pipes; and it ends
    by leaving the loop, by waiting on an empty pipe, or out of fuel. *)
Lemma kernel_loop_reads_only fuel : forall len idx s w,
  exists w',
    reads_only w w' /\
    ((exists v, kernel_loop fuel len idx s w = Ok v w') \/
     (exists h, h <> OutOfBounds /\ kernel_loop fuel len idx s w = Halt h w')).
Proof.
  induction fuel as [|fuel IH]; intros len idx s w; simpl;
    destruct (idx <? len).
  - exists w. split; [apply reads_only_refl|]. right. exists OutOfFuel.
    split; [discriminate|reflexivity].
  - exists w. split; [apply reads_only_refl|]. left. eexists. reflexivity.
  - unfold bind, device_read.
    destruct (pipe_get IDPipeA w) as [|a ra] eqn:EA.
    { exists w. split; [apply reads_only_refl|]. right. exists Blocked.
      split; [discriminate|reflexivity]. }
    match goal with
    | |- context [pipe_get IDPipeB ?w1] => destruct (pipe_get IDPipeB w1) as [|b rb] eqn:EB
    end.
    { eexists. split; [|right; exists Blocked; split; [discriminate|reflexivity]].
      apply (reads_only_read IDPipeA a ra); [discriminate|apply reads_only_refl]. }
    match goal with
    | |- context [kernel_loop fuel len ?i ?t ?w2] =>
        destruct (IH len i t w2) as (w' & Hro & Hend)
    end.
    exists w'. split; [|exact Hend].
    apply (reads_only_read IDPipeA a ra); [discriminate|].
    apply (reads_only_read IDPipeB b rb); [discriminate|]. exact Hro.
  - exists w. split; [apply reads_only_refl|]. left. eexists. reflexivity.
Qed.

(** X3: an invocation never throws and never prints. It either returns,
    having read the input pipes and then written one value to pipe C, or it
    waits for ever on an input pipe, having read the input pipes and written
    nothing. *)
Theorem operator_call_effects (k : SimpleVAddKernel) (w : world) :
  is_int (len k) ->
  exists w' reads,
    Forall (fun e => is_input_read e = true) reads /\
    cout w' = cout w /\ cerr w' = cerr w /\ faults w' = faults w /\
    ((exists v, operator_call k w = Ok tt w' /\
                trace w' = trace w ++ reads ++ [DevWrite IDPipeC v] /\
                pipeC w' = pipeC w ++ [v]) \/
     (operator_call k w = Halt Blocked w' /\
      trace w' = trace w ++ reads /\ pipeC w' = pipeC w)).
Proof.
  intros Hk.
  pose proof (operator_call_fuel k w) as Hfuel.
  unfold operator_call in *. rewrite bind_eq in *.
  destruct (kernel_loop_reads_only (Z.to_nat (len k)) (len k) 0 0 w)
    as (w1 & (HC & Hout & Herr & Hf & evs & Htr & Hevs) & Hend).
  destruct Hend as [[v Hv]|[h [Hh Hv]]]; rewrite Hv in *.
  - exists (log_events [DevWrite IDPipeC v] (pipe_set IDPipeC (pipeC w1 ++ [v]) w1)), evs.
    split; [exact Hevs|].
    unfold device_write; simpl. repeat split; try assumption.
    left. exists v. split; [reflexivity|].
    rewrite Htr, HC, <- app_assoc. split; reflexivity.
  - exists w1, evs. split; [exact Hevs|]. repeat split; try assumption.
    right. destruct h; [|contradiction|exfalso; eapply Hfuel; eauto].
    repeat split; assumption.
Qed.

Lemma kernel_loop_short fuel : forall len idx s w,
  INT_MIN <= idx -> len <= INT_MAX -> len - idx <= Z.of_nat fuel ->
  Z.of_nat (length (pipeA w)) < len - idx \/ Z.of_nat (length (pipeB w)) < len - idx ->
  exists w', kernel_loop fuel len idx s w = Halt Blocked w'.
Proof.
  induction fuel as [|fuel IH]; intros len idx s w Hlo Hhi Hf Hshort.
  - lia.
  - simpl. destruct (idx <? len) eqn:E; [|apply Z.ltb_ge in E; lia].
    apply Z.ltb_lt in E. unfold bind, device_read. simpl pipe_get.
    destruct (pipeA w) as [|a ra] eqn:EA; [eexists; reflexivity|].
    simpl.
    destruct (pipeB w) as [|b rb] eqn:EB; [eexists; reflexivity|].
    rewrite (int_add_succ idx len) by lia.
    apply IH; simpl in *; lia.
Qed.

(** X1: when one of the input pipes holds fewer than N values, the
    invocation never returns: it waits on an empty pipe, and pipe C is left
    as it was. *)
Theorem operator_call_blocks_when_short (N : Z) (w : world) :
  0 <= N <= INT_MAX ->
  Z.of_nat (length (pipeA w)) < N \/ Z.of_nat (length (pipeB w)) < N ->
  exists w', operator_call {| len := N |} w = Halt Blocked w' /\
             pipeC w' = pipeC w /\
             count_events (is_dev_write IDPipeC) (drop (length (trace w)) (trace w')) = O.
Proof.
  intros HN Hshort.
  destruct (kernel_loop_short (Z.to_nat N) N 0 0 w) as (w1 & Hblock);
    [unfold INT_MIN; lia | lia | lia | lia |].
  destruct (kernel_loop_reads_only (Z.to_nat N) N 0 0 w)
    as (w' & (HC & _ & _ & _ & evs & Htr & Hevs) & Hend).
  assert (w' = w1) as ->.
  { destruct Hend as [[v Hv]|[h [_ Hv]]]; congruence. }
  exists w1. split.
  { unfold operator_call. simpl len. rewrite bind_eq, Hblock. reflexivity. }
  split; [exact HC|].
  rewrite Htr, drop_app_length.
  clear -Hevs. induction Hevs as [|e l He _ IH]; [reflexivity|].
  unfold count_events in *. simpl.
  destruct e as [| |[] ?| | |]; try discriminate; exact IH.
Qed.

(** X2: a count that is zero or negative makes the loop run no iteration:
    the invocation reads nothing and writes 0 to pipe C. *)
Theorem operator_call_nonpositive (N : Z) (w : world) :
  N <= 0 ->
  operator_call {| len := N |} w =
    Ok tt (mkWorld (pipeA w) (pipeB w) (pipeC w ++ [0]) (cout w) (cerr w)
             (trace w ++ [DevWrite IDPipeC 0]) (faults w) (device_name w)).
Proof.
  intros HN. unfold operator_call. simpl len.
  rewrite bind_eq, kernel_loop_exit by lia. reflexivity.
Qed.

Lemma sum_of_pairs_app xs1 : forall ys1 xs2 ys2,
  length ys1 = length xs1 ->
  sum_of_pairs (xs1 ++ xs2) (ys1 ++ ys2) = sum_of_pairs xs1 ys1 + sum_of_pairs xs2 ys2.
Proof.
  unfold sum_of_pairs.
  induction xs1 as [|x xs1 IH]; intros [|y ys1] xs2 ys2 Hl; try discriminate.
  - reflexivity.
  - simpl in *. rewrite IH by lia. lia.
Qed.

Lemma running_total_app xs1 ys1 xs2 ys2 :
  length ys1 = length xs1 ->
  running_total 0 (xs1 ++ xs2) (ys1 ++ ys2) =
    int_add (running_total 0 xs1 ys1) (running_total 0 xs2 ys2).
Proof.
  intros Hl.
  rewrite !running_total_spec by (unfold is_int, INT_MIN, INT_MAX; lia).
  rewrite sum_of_pairs_app by exact Hl. rewrite !Z.add_0_l.
  unfold int_add. rewrite wrap_int_add_l, wrap_int_add_r. reflexivity.
Qed.

(** X4: summing in two invocations is summing in one. With N1 + N2 values
    waiting in each input pipe, an invocation of count N1 followed by one of
    count N2 writes two values whose [int] sum is the value one invocation
    of count N1 + N2 writes; both ways leave the input pipes the same. *)
Theorem operator_call_split (N1 N2 : Z) (xs1 ys1 xs2 ys2 ra rb : list Z) (w : world) :
  0 <= N1 -> 0 <= N2 -> N1 + N2 <= INT_MAX ->
  Z.of_nat (length xs1) = N1 -> Z.of_nat (length ys1) = N1 ->
  Z.of_nat (length xs2) = N2 -> Z.of_nat (length ys2) = N2 ->
  pipeA w = xs1 ++ xs2 ++ ra -> pipeB w = ys1 ++ ys2 ++ rb ->
  exists v1 v2 w2 w12,
    (operator_call {| len := N1 |};; operator_call {| len := N2 |}) w = Ok tt w2 /\
    operator_call {| len := N1 + N2 |} w = Ok tt w12 /\
    pipeC w2 = pipeC w ++ [v1; v2] /\
    pipeC w12 = pipeC w ++ [int_add v1 v2] /\
    pipeA w2 = ra /\ pipeA w12 = ra /\ pipeB w2 = rb /\ pipeB w12 = rb.
Proof.
  intros H1 H2 H12 Hx1 Hy1 Hx2 Hy2 HA HB.
  exists (running_total 0 xs1 ys1), (running_total 0 xs2 ys2).
  eexists _, _. split; [|split].
  - rewrite bind_eq.
    rewrite (operator_call_ok N1 xs1 ys1 (xs2 ++ ra) (ys2 ++ rb)); try assumption; [|lia].
    apply (operator_call_ok N2 xs2 ys2 ra rb); try assumption; try reflexivity. lia.
  - apply (operator_call_ok (N1 + N2) (xs1 ++ xs2) (ys1 ++ ys2) ra rb).
    + lia.
    + rewrite length_app. lia.
    + rewrite length_app. lia.
    + rewrite HA, app_assoc. reflexivity.
    + rewrite HB, app_assoc. reflexivity.
  - simpl. rewrite <- app_assoc, running_total_app by lia. repeat split; reflexivity.
Qed.

Lemma kernel_output_ok N xs ys ra rb w :
  0 <= N <= INT_MAX ->
  Z.of_nat (length xs) = N -> Z.of_nat (length ys) = N ->
  pipeA w = xs ++ ra -> pipeB w = ys ++ rb ->
  kernel_output {| len := N |} w = Some (running_total 0 xs ys).
Proof.
  intros HN Hx Hy HA HB. unfold kernel_output.
  rewrite (operator_call_ok N xs ys ra rb) by assumption. simpl.
  apply last_snoc.
Qed.

Lemma sum_of_pairs_values xs : forall ys,
  length ys = length xs -> sum_of_pairs xs ys = sum_values xs + sum_values ys.
Proof.
  unfold sum_of_pairs, sum_values.
  induction xs as [|x xs IH]; intros [|y ys] Hl; try discriminate; [reflexivity|].
  simpl in *. rewrite IH by lia. lia.
Qed.

Lemma sum_values_app l1 l2 : sum_values (l1 ++ l2) = sum_values l1 + sum_values l2.
Proof.
  unfold sum_values. induction l1 as [|x l1 IH]; simpl; [reflexivity|]. rewrite IH. lia.
Qed.

Lemma sum_values_perm l1 l2 : l1 ≡ₚ l2 -> sum_values l1 = sum_values l2.
Proof.
  unfold sum_values. induction 1; simpl; lia.
Qed.

(** X5: the value written depends on the values read only as a multiset:
    it is the [int] sum of all 2N of them. Two invocations of count N whose
    inputs hold the same values, in any order and in either pipe, write the
    same value. *)
Theorem operator_call_order_irrelevant (N : Z)
    (xs ys ra rb xs' ys' ra' rb' : list Z) (w w' : world) :
  0 <= N <= INT_MAX ->
  Z.of_nat (length xs) = N -> Z.of_nat (length ys) = N ->
  Z.of_nat (length xs') = N -> Z.of_nat (length ys') = N ->
  pipeA w = xs ++ ra -> pipeB w = ys ++ rb ->
  pipeA w' = xs' ++ ra' -> pipeB w' = ys' ++ rb' ->
  xs ++ ys ≡ₚ xs' ++ ys' ->
  kernel_output {| len := N |} w = Some (wrap_int (sum_values (xs ++ ys))) /\
  kernel_output {| len := N |} w' = kernel_output {| len := N |} w.
Proof.
  intros HN Hx Hy Hx' Hy' HA HB HA' HB' Hperm.
  rewrite (kernel_output_ok N xs ys ra rb w), (kernel_output_ok N xs' ys' ra' rb' w')
    by assumption.
  rewrite !running_total_spec by (unfold is_int, INT_MIN, INT_MAX; lia).
  rewrite !Z.add_0_l, !sum_of_pairs_values by lia.
  rewrite <- !sum_values_app, (sum_values_perm _ _ Hperm). split; reflexivity.
Qed.

(** * Further properties of the harness *)

Lemma sum_of_pairs_fed count js :
  sum_of_pairs (fed_A js) (fed_B count js) = Z.of_nat (length js) * count.
Proof.
  unfold sum_of_pairs, fed_A, fed_B.
  induction js as [|j js IH]; [reflexivity|].
  cbn [fmap list_fmap zip_with foldr length]. rewrite IH. lia.
Qed.

(** From empty input pipes the kernel that [main_try] launches reads what
    was fed and finds the expected sum of the harness. *)
Lemma kernel_total_clean count w :
  0 <= count -> pipeA w = [] -> pipeB w = [] ->
  kernel_total count w = wrap_int (count * count).
Proof.
  intros Hc HA HB. unfold kernel_total, kernel_reads_A, kernel_reads_B.
  rewrite HA, HB. simpl.
  rewrite !take_ge by (rewrite ?length_fed_A, ?length_fed_B; lia).
  rewrite running_total_spec by (unfold is_int, INT_MIN, INT_MAX; lia).
  rewrite sum_of_pairs_fed, length_seqZ, Z2Nat.id, Z.add_0_l by lia. reflexivity.
Qed.

(** X6: started with empty pipes and met by no fault, the program passes
    for every count from 0 whose square fits an [int] (so that no sum
    overflows): it returns [EXIT_SUCCESS], prints the device, the size and
    PASSED, prints nothing on [cerr], and leaves the three pipes empty. *)
Theorem main_passes_from_clean_start (sel : selector) (count : Z) (w : world) :
  0 <= count -> count * count <= INT_MAX ->
  pipeA w = [] -> pipeB w = [] -> pipeC w = [] ->
  first_fault (main_calls count) (faults w) = None ->
  exists w',
    main_with sel count w = (Exited EXIT_SUCCESS, w') /\
    cout w' = cout w ++ [Str "Running on device: "; Str (device_name w sel); Endl;
                         Str "Add two vectors of size "; Num count; Endl;
                         Str "PASSED"; Endl] /\
    cerr w' = cerr w /\
    pipeA w' = [] /\ pipeB w' = [] /\ pipeC w' = [].
Proof.
  intros Hpos Hsq HA HB HC Hff.
  assert (Hc : 0 <= count <= INT_MAX) by nia.
  pose proof (main_try_run sel count w Hc) as H. rewrite Hff in H.
  destruct H as (a & b & e & w1 & _ & -> & Hmain).
  unfold main_with. rewrite Hmain.
  assert (Hcalc : host_calc count w = wrap_int (count * count)).
  { unfold host_calc. rewrite HC. simpl. apply kernel_total_clean; [lia|assumption..]. }
  rewrite Hcalc, Z.eqb_refl.
  eexists. split; [reflexivity|]. simpl. unfold run_output.
  rewrite Hcalc, Z.eqb_refl, HA, HB, HC. simpl.
  rewrite !drop_ge by (rewrite ?length_fed_A, ?length_fed_B; lia).
  repeat split; reflexivity.
Qed.

(** X7: a run that returns from [main] leaves in every pipe as many values
    as it found there; in the input pipes the fed values queue behind what
    was there, and the kernel has taken the oldest [count]. *)
Theorem main_conserves_pipes (sel : selector) (count : Z) (w : world)
    (code : Z) (w' : world) :
  count <= INT_MAX ->
  main_with sel count w = (Exited code, w') ->
  length (pipeA w') = length (pipeA w) /\
  length (pipeB w') = length (pipeB w) /\
  length (pipeC w') = length (pipeC w) /\
  exists readA readB,
    length readA = Z.to_nat count /\ length readB = Z.to_nat count /\
    pipeA w ++ seqZ 0 count = readA ++ pipeA w' /\
    pipeB w ++ ((fun j => count - j) <$> seqZ 0 count) = readB ++ pipeB w'.
Proof.
  intros Hc Hrun.
  destruct (main_with_exited sel count w code w' Hc Hrun)
    as (Hpos & _ & a & b & e & w1 & _ & _ & _ & ->).
  simpl.
  rewrite !length_drop, !length_app, length_fed_A, length_fed_B.
  split; [lia|]. split; [lia|]. split.
  { destruct (pipeC w); simpl; [reflexivity|]. rewrite length_app. simpl. lia. }
  exists (kernel_reads_A count w), (kernel_reads_B count w).
  rewrite length_kernel_reads_A, length_kernel_reads_B by lia.
  split; [reflexivity|]. split; [reflexivity|].
  unfold kernel_reads_A, kernel_reads_B. rewrite !take_drop.
  split; reflexivity.
Qed.

(** X8: for every count from 0 whose square fits an [int], the feeding
    loop met by no fault appends 0, 1, ..., count - 1 to pipe A and count,
    count - 1, ..., 1 to pipe B, behind what is there, touches neither pipe C
    nor the output streams, and returns [count * count]. *)
Theorem feed_loop_fills_pipes (sel : selector) (count : Z) (w : world) :
  0 <= count -> count * count <= INT_MAX ->
  first_fault (Z.to_nat count + Z.to_nat count) (faults w) = None ->
  exists a b w1,
    feed_loop (Z.to_nat count) {| queue_selector := sel |} count 0
      (replicate (Z.to_nat count) 0) (replicate (Z.to_nat count) 0) 0 w =
      Ok (a, b, count * count) w1 /\
    pipeA w1 = pipeA w ++ seqZ 0 count /\
    pipeB w1 = pipeB w ++ ((fun j => count - j) <$> seqZ 0 count) /\
    pipeC w1 = pipeC w /\ cout w1 = cout w /\ cerr w1 = cerr w /\
    faults w1 = drop (Z.to_nat count + Z.to_nat count) (faults w).
Proof.
  intros Hpos Hsq Hff.
  assert (Hc : 0 <= count <= INT_MAX) by nia.
  eexists _, _, _. split.
  - rewrite (feed_loop_expected sel count w Hc Hff).
    rewrite wrap_int_id by (unfold is_int, INT_MIN; nia). reflexivity.
  - simpl. repeat split; reflexivity.
Qed.

(** X11: for every count up to 46340, the largest whose square fits an
    [int], whatever the pipes hold at the start and whichever runtime calls
    fault, [main] neither waits for ever on a pipe nor indexes out of its
    arrays: it returns 0 or 1, or ends in [std::terminate]. *)
Theorem main_never_stops (sel : selector) (count : Z) (w : world) :
  count <= 46340 ->
  exists w',
    main_with sel count w = (Terminated, w') \/
    main_with sel count w = (Exited 0, w') \/
    main_with sel count w = (Exited 1, w').
Proof.
  intros Hsmall.
  assert (Hc : count <= INT_MAX) by (unfold INT_MAX; lia).
  unfold main_with.
  destruct (Z.lt_ge_cases count 0) as [Hneg|Hpos].
  { destruct (main_try_negative sel count w Hneg) as (e & w0 & He). rewrite He.
    destruct e; eexists; left; reflexivity. }
  pose proof (main_try_run sel count w (conj Hpos Hc)) as H.
  destruct (first_fault (main_calls count) (faults w)) as [what|].
  - destruct H as (w0 & He & _). rewrite He. eexists; left; reflexivity.
  - destruct H as (a & b & e & w1 & _ & _ & Hmain). rewrite Hmain.
    destruct (host_calc count w =? e); eexists; right; [left|right]; reflexivity.
Qed.

Lemma feeds_only_refl w : feeds_only w w.
Proof.
  repeat split. exists []. split; [symmetry; apply app_nil_r|constructor].
Qed.

Lemma feeds_only_trans w1 w2 w3 :
  feeds_only w1 w2 -> feeds_only w2 w3 -> feeds_only w1 w3.
Proof.
  intros (HC1 & He1 & evs1 & Ht1 & Hf1) (HC2 & He2 & evs2 & Ht2 & Hf2).
  split; [congruence|]. split; [congruence|].
  exists (evs1 ++ evs2). split.
  - rewrite Ht2, Ht1, app_assoc. reflexivity.
  - apply Forall_app. split; assumption.
Qed.

Lemma feeds_only_bind {A B} (m : M A) (k : A -> M B) w :
  feeds_only w (world_of (m w)) ->
  (forall a w1, m w = Ok a w1 -> feeds_only w1 (world_of (k a w1))) ->
  feeds_only w (world_of (bind m k w)).
Proof.
  intros Hm Hk. rewrite world_of_bind.
  destruct (m w) as [a w1|e w1|h w1]; simpl in Hm; try exact Hm.
  eapply feeds_only_trans; [exact Hm|]. apply Hk. reflexivity.
Qed.

Lemma feeds_only_after_calls n w : feeds_only w (after_calls n w).
Proof.
  repeat split. exists []. split; [symmetry; apply app_nil_r|constructor].
Qed.

Lemma feeds_only_array_store arr i v w :
  feeds_only w (world_of (array_store arr i v w)).
Proof.
  unfold array_store. destruct ((0 <=? i) && (i <? Z.of_nat (length arr)));
    apply feeds_only_refl.
Qed.

Lemma feeds_only_array_load arr i w :
  feeds_only w (world_of (array_load arr i w)).
Proof.
  unfold array_load. destruct (0 <=? i); [|apply feeds_only_refl].
  destruct (arr !! Z.to_nat i); apply feeds_only_refl.
Qed.

Lemma feeds_only_host_write q p v w :
  p <> IDPipeC -> feeds_only w (world_of (host_write q p v w)).
Proof.
  intros Hp. rewrite host_write_run.
  destruct (first_fault 1 (faults w)); [apply feeds_only_after_calls|].
  destruct p; try contradiction; simpl;
    (repeat split; eexists [_]; split; [reflexivity|repeat constructor]).
Qed.

(** However the feeding loop ends, it has done nothing to the pipes but
    host writes of pipes A and B. *)
Lemma feed_loop_feeds_only fuel : forall q count i a b s w,
  feeds_only w (world_of (feed_loop fuel q count i a b s w)).
Proof.
  induction fuel as [|fuel IH]; intros q count i a b s w; simpl;
    destruct (i <? count); try apply feeds_only_refl.
  apply feeds_only_bind; [apply feeds_only_array_store|intros a1 w1 _].
  apply feeds_only_bind; [apply feeds_only_array_store|intros b1 w2 _].
  apply feeds_only_bind; [apply feeds_only_array_load|intros a_i w3 _].
  apply feeds_only_bind; [apply feeds_only_array_load|intros b_i w4 _].
  apply feeds_only_bind; [apply feeds_only_array_load|intros a_i' w5 _].
  apply feeds_only_bind; [apply feeds_only_host_write; discriminate|intros [] w6 _].
  apply feeds_only_bind; [apply feeds_only_array_load|intros b_i' w7 _].
  apply feeds_only_bind; [apply feeds_only_host_write; discriminate|intros [] w8 _].
  apply IH.
Qed.

(** X9: a fault of one of the runtime calls before the launch (the three
    set-up calls and the [count + count] pipe writes) ends the run in
    [std::terminate] with the diagnostic on [cerr]; the kernel is never
    launched, pipe C is not touched, and the only pipe operations are the
    host writes done so far. *)
Theorem fault_before_launch (sel : selector) (count : Z) (w : world) (what : string) :
  0 <= count <= INT_MAX ->
  first_fault (3 + (Z.to_nat count + Z.to_nat count)) (faults w) = Some what ->
  exists w' evs,
    main_with sel count w = (Terminated, w') /\
    cerr w' = cerr w ++ diagnostic what /\
    pipeC w' = pipeC w /\
    trace w' = trace w ++ evs /\
    Forall (fun e => is_feed_write e = true) evs.
Proof.
  intros Hc Hff.
  assert (Hgoal : exists w0, main_try sel count w = Throw (sycl_exception what) w0 /\
                             feeds_only w w0).
  { unfold main_try.
    change (3 + (Z.to_nat count + Z.to_nat count))%nat
      with (S (S (S (Z.to_nat count + Z.to_nat count)))) in Hff.
    rewrite first_fault_S in Hff. rewrite bind_eq, queue_ctor_run.
    destruct (first_fault 1 (faults w)) as [what1|] eqn:E1.
    { injection Hff as ->. eexists. split; [reflexivity|apply feeds_only_after_calls]. }
    cbv beta iota. rewrite first_fault_S in Hff. rewrite bind_eq, get_device_run.
    simpl faults.
    destruct (first_fault 1 (drop 1 (faults w))) as [what2|] eqn:E2.
    { injection Hff as ->. eexists. split; [reflexivity|].
      repeat split. exists []. split; [symmetry; apply app_nil_r|constructor]. }
    cbv beta iota. rewrite bind_eq, print_cout_run. cbv beta iota.
    rewrite first_fault_S in Hff. rewrite bind_eq, get_info_name_run.
    simpl faults.
    destruct (first_fault 1 (drop 1 (drop 1 (faults w)))) as [what3|] eqn:E3.
    { injection Hff as ->. eexists. split; [reflexivity|].
      repeat split. exists []. split; [symmetry; apply app_nil_r|constructor]. }
    cbv beta iota. simpl device_name. simpl queue_selector.
    rewrite !drop_drop in Hff. change (1 + (1 + 1))%nat with 3%nat in Hff.
    rewrite bind_eq, print_cout_run. cbv beta iota. rewrite feeding_world_reached.
    rewrite bind_eq, new_int_array_run by lia. cbv beta iota.
    rewrite bind_eq, new_int_array_run by lia. cbv beta iota.
    rewrite bind_eq.
    pose proof (feed_loop_run {| queue_selector := sel |} count (Z.to_nat count)
                  (Z.to_nat count) 0 (replicate (Z.to_nat count) 0)
                  (replicate (Z.to_nat count) 0) 0 (feeding_world sel w)) as Hfeed.
    rewrite !length_replicate in Hfeed.
    lapply Hfeed; [clear Hfeed; intros Hfeed|lia].
    do 5 (lapply Hfeed; [clear Hfeed; intros Hfeed|lia]).
    lapply Hfeed; [clear Hfeed; intros Hfeed|unfold is_int, INT_MIN, INT_MAX; lia].
    simpl faults in Hfeed. rewrite Hff in Hfeed.
    destruct Hfeed as (w0 & Hrun & _).
    pose proof (feed_loop_feeds_only (Z.to_nat count) {| queue_selector := sel |} count 0
                  (replicate (Z.to_nat count) 0) (replicate (Z.to_nat count) 0) 0
                  (feeding_world sel w)) as Hinv.
    rewrite Hrun in *. simpl in Hinv.
    exists w0. split; [reflexivity|].
    eapply feeds_only_trans; [|exact Hinv].
    repeat split. exists []. split; [symmetry; apply app_nil_r|constructor]. }
  destruct Hgoal as (w0 & Hthrow & HC & Herr & evs & Htr & Hevs).
  exists (put_cerr (diagnostic what) w0), evs.
  unfold main_with. rewrite Hthrow. simpl.
  rewrite Herr. repeat split; assumption.
Qed.

(** X10: with a negative count and the three set-up calls met by no fault,
    [new int[count]] throws an exception that is no [sycl::exception]: the
    run ends in [std::terminate] having printed the device line only, with
    no diagnostic on [cerr] and no pipe operation done. *)
Theorem main_negative_count (sel : selector) (count : Z) (w : world) :
  count < 0 ->
  first_fault 3 (faults w) = None ->
  main_try sel count w = Throw bad_array_new_length (feeding_world sel w) /\
  main_with sel count w = (Terminated, feeding_world sel w) /\
  cerr (feeding_world sel w) = cerr w /\
  trace (feeding_world sel w) = trace w /\
  cout (feeding_world sel w) =
    cout w ++ [Str "Running on device: "; Str (device_name w sel); Endl].
Proof.
  intros Hc Hff.
  assert (Htry : main_try sel count w = Throw bad_array_new_length (feeding_world sel w)).
  { unfold main_try.
    rewrite first_fault_S in Hff. rewrite bind_eq, queue_ctor_run.
    destruct (first_fault 1 (faults w)) as [what1|] eqn:E1; [discriminate|].
    cbv beta iota. rewrite first_fault_S in Hff. rewrite bind_eq, get_device_run.
    simpl faults.
    destruct (first_fault 1 (drop 1 (faults w))) as [what2|] eqn:E2; [discriminate|].
    cbv beta iota. rewrite bind_eq, print_cout_run. cbv beta iota.
    rewrite bind_eq, get_info_name_run. simpl faults.
    rewrite Hff. cbv beta iota.
    simpl device_name. simpl queue_selector.
    rewrite bind_eq, print_cout_run. cbv beta iota. rewrite feeding_world_reached.
    rewrite bind_eq. unfold new_int_array.
    destruct (count <? 0) eqn:E; [reflexivity|apply Z.ltb_ge in E; lia]. }
  split; [exact Htry|]. unfold main_with. rewrite Htry.
  repeat split; reflexivity.
Qed.

(** * The further properties at concrete runs *)

Lemma operator_call_blocks_when_short_witness :
  0 <= 4 <= INT_MAX /\
  exists w', operator_call {| len := 4 |} two_pairs_left = Halt Blocked w' /\
             pipeC w' = pipeC two_pairs_left /\
             count_events (is_dev_write IDPipeC)
               (drop (length (trace two_pairs_left)) (trace w')) = O.
Proof.
  split; [unfold INT_MAX; lia|].
  apply (operator_call_blocks_when_short 4 two_pairs_left);
    [unfold INT_MAX; lia | left; simpl; lia].
Defined.

Lemma operator_call_nonpositive_witness :
  -5 <= 0 /\
  operator_call {| len := -5 |} two_pairs_left =
    Ok tt (mkWorld [1; 2; 3] [10; 20; 30] [0] [] [] [DevWrite IDPipeC 0] []
             (device_name two_pairs_left)).
Proof.
  split; [lia|]. apply (operator_call_nonpositive (-5) two_pairs_left). lia.
Defined.

Lemma operator_call_effects_witness :
  is_int 2 /\
  exists w' reads,
    Forall (fun e => is_input_read e = true) reads /\
    cout w' = cout two_pairs_left /\ cerr w' = cerr two_pairs_left /\
    faults w' = faults two_pairs_left /\
    ((exists v, operator_call {| len := 2 |} two_pairs_left = Ok tt w' /\
                trace w' = trace two_pairs_left ++ reads ++ [DevWrite IDPipeC v] /\
                pipeC w' = pipeC two_pairs_left ++ [v]) \/
     (operator_call {| len := 2 |} two_pairs_left = Halt Blocked w' /\
      trace w' = trace two_pairs_left ++ reads /\ pipeC w' = pipeC two_pairs_left)).
Proof.
  assert (H : is_int 2) by (unfold is_int, INT_MIN, INT_MAX; lia).
  split; [exact H|].
  apply (operator_call_effects {| len := 2 |} two_pairs_left H).
Defined.

Lemma operator_call_split_witness :
  exists v1 v2 w2 w12,
    (operator_call {| len := 1 |};; operator_call {| len := 2 |}) two_pairs_left = Ok tt w2 /\
    operator_call {| len := 1 + 2 |} two_pairs_left = Ok tt w12 /\
    pipeC w2 = pipeC two_pairs_left ++ [v1; v2] /\
    pipeC w12 = pipeC two_pairs_left ++ [int_add v1 v2] /\
    pipeA w2 = [] /\ pipeA w12 = [] /\ pipeB w2 = [] /\ pipeB w12 = [].
Proof.
  apply (operator_call_split 1 2 [1] [10] [2; 3] [20; 30] [] [] two_pairs_left);
    try reflexivity; unfold INT_MAX; lia.
Defined.

Lemma operator_call_order_irrelevant_witness :
  [1; 2] ++ [10; 20] ≡ₚ [20; 1] ++ [2; 10] /\
  kernel_output {| len := 2 |} two_pairs_left = Some (wrap_int (sum_values ([1; 2] ++ [10; 20]))) /\
  kernel_output {| len := 2 |}
    (pipe_set IDPipeB [2; 10; 8] (pipe_set IDPipeA [20; 1] (start []))) =
  kernel_output {| len := 2 |} two_pairs_left.
Proof.
  assert (Hp : [1; 2] ++ [10; 20] ≡ₚ [20; 1] ++ [2; 10])
    by (symmetry; apply (Permutation_cons_append [1; 2; 10] 20)).
  split; [exact Hp|].
  apply (operator_call_order_irrelevant 2 [1; 2] [10; 20] [3] [30] [20; 1] [2; 10] [] [8]
           two_pairs_left
           (pipe_set IDPipeB [2; 10; 8] (pipe_set IDPipeA [20; 1] (start []))));
    try reflexivity; [unfold INT_MAX; lia | exact Hp].
Defined.

Lemma main_passes_from_clean_start_witness :
  (0 <= kVectorSize /\ kVectorSize * kVectorSize <= INT_MAX) /\
  exists w',
    main_with fpga_emulator_selector_v kVectorSize (start []) = (Exited EXIT_SUCCESS, w') /\
    cout w' = cout (start []) ++
              [Str "Running on device: ";
               Str (device_name (start []) fpga_emulator_selector_v); Endl;
               Str "Add two vectors of size "; Num kVectorSize; Endl;
               Str "PASSED"; Endl] /\
    cerr w' = cerr (start []) /\
    pipeA w' = [] /\ pipeB w' = [] /\ pipeC w' = [].
Proof.
  split; [unfold kVectorSize, INT_MAX; lia|].
  apply (main_passes_from_clean_start fpga_emulator_selector_v kVectorSize (start []));
    try reflexivity; unfold kVectorSize, INT_MAX; lia.
Defined.

Lemma main_conserves_pipes_witness :
  main_with fpga_emulator_selector_v kVectorSize stale_output =
    (Exited 1, snd (main_with fpga_emulator_selector_v kVectorSize stale_output)) /\
  length (pipeC (snd (main_with fpga_emulator_selector_v kVectorSize stale_output))) =
    length (pipeC stale_output).
Proof.
  split; [vm_compute; reflexivity|].
  apply (main_conserves_pipes fpga_emulator_selector_v kVectorSize stale_output 1
           (snd (main_with fpga_emulator_selector_v kVectorSize stale_output)));
    [unfold kVectorSize, INT_MAX; lia | vm_compute; reflexivity].
Defined.

Lemma feed_loop_fills_pipes_witness :
  exists a b w1,
    feed_loop (Z.to_nat 3) {| queue_selector := fpga_selector_v |} 3 0
      (replicate (Z.to_nat 3) 0) (replicate (Z.to_nat 3) 0) 0 two_pairs_left =
      Ok (a, b, 9) w1 /\
    pipeA w1 = pipeA two_pairs_left ++ seqZ 0 3 /\
    pipeB w1 = pipeB two_pairs_left ++ ((fun j => 3 - j) <$> seqZ 0 3) /\
    pipeC w1 = pipeC two_pairs_left /\ cout w1 = cout two_pairs_left /\
    cerr w1 = cerr two_pairs_left /\
    faults w1 = drop (Z.to_nat 3 + Z.to_nat 3) (faults two_pairs_left).
Proof.
  apply (feed_loop_fills_pipes fpga_selector_v 3 two_pairs_left);
    [lia | unfold INT_MAX; lia | reflexivity].
Defined.

Lemma fault_before_launch_witness :
  exists w' evs,
    main_with fpga_selector_v kVectorSize
      (start [None; None; None; None; None; Some "pipe write failed"%string]) =
      (Terminated, w') /\
    cerr w' = [] ++ diagnostic "pipe write failed" /\
    pipeC w' = [] /\
    trace w' = [] ++ evs /\
    Forall (fun e => is_feed_write e = true) evs.
Proof.
  apply (fault_before_launch fpga_selector_v kVectorSize
           (start [None; None; None; None; None; Some "pipe write failed"%string]));
    [unfold kVectorSize, INT_MAX; lia | reflexivity].
Defined.

Lemma main_negative_count_witness :
  -1 < 0 /\
  main_with fpga_emulator_selector_v (-1) (start []) =
    (Terminated, feeding_world fpga_emulator_selector_v (start [])) /\
  cerr (feeding_world fpga_emulator_selector_v (start [])) = [].
Proof.
  split; [lia|].
  destruct (main_negative_count fpga_emulator_selector_v (-1) (start []))
    as (_ & Hmain & Hcerr & _); [lia | reflexivity |].
  split; [exact Hmain | exact Hcerr].
Defined.

Lemma main_never_stops_witness :
  kVectorSize <= 46340 /\
  exists w',
    main_with fpga_emulator_selector_v kVectorSize stale_output = (Terminated, w') \/
    main_with fpga_emulator_selector_v kVectorSize stale_output = (Exited 0, w') \/
    main_with fpga_emulator_selector_v kVectorSize stale_output = (Exited 1, w').
Proof.
  split; [unfold kVectorSize; lia|].
  apply (main_never_stops fpga_emulator_selector_v kVectorSize stale_output).
  unfold kVectorSize; lia.
Defined.
